(** * Spatial feature analysis: university map and park/road proximity

    A shallow embedding of the two analysis scripts of the repository,

    - [OSM Task1/university_map.py]        (module [UniversityMap]),
    - [Geojson Task2/geospatial_analysis.py] (module [GeospatialAnalysis]),

    together with the properties their specification states about them.

    Conventions of the embedding.

    - A Python [float] is a rational ([Q]); the only non-finite value
      that the scripts can manufacture from finite data is the [nan]
      that [np.mean] returns on an empty list, which is kept as [NaN] in
      [pyfloat].  In [get_color], whose output depends on it, every
      float operation is followed by [fl], the rounding to the nearest
      double.  Means, distances and legend ticks are computed exactly:
      the rounding inside [np.mean] and inside the geometry library is
      not modelled.
    - A Python [int] is a [Z].
    - A Python exception is a constructor of [pyerr]; a function that can
      raise returns a [result].
    - The geometry predicates of shapely and geopandas ([contains],
      [distance], [buffer], [intersects], ...) are not part of the
      repository.  They are section variables; each module also carries
      a small executable instance of them that is used to evaluate the
      scripts on concrete data.
    - Neither is the regular expression engine behind [str.contains]:
      its test of one pattern character against one character with
      [re.IGNORECASE], and its compiler of patterns with regular
      expression syntax, are section variables too. *)

From Stdlib Require Import ZArith QArith Qround Qpower List String Ascii Bool Lia Lqa.
Import ListNotations.

Set Implicit Arguments.
Set Warnings "-notation-for-abbreviation".

(** ** Python results *)

Inductive pyerr : Type :=
| IndexError
| KeyError
| TypeError
| ValueError
| ReError.

Inductive result (A : Type) : Type :=
| Return (a : A)
| Raise (e : pyerr).

Arguments Return {A} a.
Arguments Raise {A} e.

Definition bind {A B : Type} (c : result A) (k : A -> result B) : result B :=
  match c with
  | Return a => k a
  | Raise e => Raise e
  end.

Notation "x <- c ;; k" := (bind c (fun x => k))
  (at level 61, c at next level, right associativity).

(** A call fails when it raises, whatever the exception. *)
Definition fails {A : Type} (r : result A) : Prop := exists e, r = Raise e.

(** [seq[0]] on a Python list. *)
Definition item0 {A : Type} (l : list A) : result A :=
  match l with
  | a :: _ => Return a
  | [] => Raise IndexError
  end.

(** [d[key]] and [d.get(key)] on a Python dict with string keys. *)
Fixpoint dict_get {V : Type} (d : list (string * V)) (key : string) : option V :=
  match d with
  | [] => None
  | (k, v) :: d' => if String.eqb k key then Some v else dict_get d' key
  end.

Definition dict_item {V : Type} (d : list (string * V)) (key : string) : result V :=
  match dict_get d key with
  | Some v => Return v
  | None => Raise KeyError
  end.

(** [d[key] = v]: an existing key keeps its place, a new key goes last. *)
Fixpoint dict_set {V : Type} (d : list (string * V)) (key : string) (v : V)
  : list (string * V) :=
  match d with
  | [] => [(key, v)]
  | (k, w) :: d' =>
      if String.eqb k key then (k, v) :: d' else (k, w) :: dict_set d' key v
  end.

(** [l1] is [l2] with some elements left out, the others in place. *)
Inductive Subsequence {A : Type} : list A -> list A -> Prop :=
| Subsequence_nil : Subsequence [] []
| Subsequence_skip a l1 l2 : Subsequence l1 l2 -> Subsequence l1 (a :: l2)
| Subsequence_keep a l1 l2 : Subsequence l1 l2 -> Subsequence (a :: l1) (a :: l2).

(** ** Floats *)

Inductive pyfloat : Type :=
| Fin (q : Q)
| NaN.

Definition Qsum (l : list Q) : Q := fold_right Qplus 0%Q l.

(** [np.mean] of a list of finite numbers: sum over length, [nan] on the
    empty list (0/0).  The sum and the quotient are the exact ones; numpy
    rounds them to doubles. *)
Definition np_mean (l : list Q) : pyfloat :=
  match l with
  | [] => NaN
  | _ :: _ => Fin (Qsum l / inject_Z (Z.of_nat (List.length l)))
  end.

(** [round(x)] on a float: the nearest integer, a tie going to the even
    one. *)
Definition py_round (v : Q) : Z :=
  let f := Qfloor v in
  match Qcompare (v - inject_Z f) (1 # 2) with
  | Lt => f
  | Gt => (f + 1)%Z
  | Eq => if Z.even f then f else (f + 1)%Z
  end.

(** [2^e] for an integer exponent. *)
Definition pow2 (e : Z) : Q := (2 ^ e)%Q.

(** The exponent of a positive rational: [2^(Qlog2 x) <= x < 2^(Qlog2 x + 1)]. *)
Definition Qlog2 (x : Q) : Z :=
  let k := (Z.log2 (Qnum x) - Z.log2 (Zpos (Qden x)))%Z in
  if Qle_bool (pow2 k) x then k else (k - 1)%Z.

(** Rounding of a positive rational to a 53-bit significand, to nearest,
    a tie going to the even significand. *)
Definition fl_pos (x : Q) : Q :=
  let e := (Qlog2 x - 52)%Z in
  (inject_Z (py_round (x / pow2 e)) * pow2 e)%Q.

(** The double nearest to [x], which is what a float operation returns
    for the exact result [x].  The exponent range is not bounded here:
    [fl] agrees with binary64 wherever [x] is zero or of a magnitude
    between [2^-1022] and [2^1023], as every value below is for counts
    of less than a thousand bits. *)
Definition fl (x : Q) : Q :=
  match Qcompare x 0 with
  | Eq => 0%Q
  | Gt => fl_pos x
  | Lt => (- fl_pos (- x))%Q
  end.

(** [int(x)] on a float: truncation toward zero. *)
Definition py_int (v : Q) : Z := Z.quot (Qnum v) (Zpos (Qden v)).

(** What it means for [m] to be the arithmetic mean of [l]. *)
Definition is_mean (l : list Q) (m : pyfloat) : Prop :=
  match l, m with
  | [], NaN => True
  | _ :: _, Fin q => (q * inject_Z (Z.of_nat (List.length l)) == Qsum l)%Q
  | _, _ => False
  end.

(** * Task 1: universities per administrative region *)

Module UniversityMap.

(** ** GeoJSON data *)

(** A position [[x, y]]; further elements (altitude) play no role in the
    script, which reads [coord[0]] and [coord[1]] only. *)
Definition position : Type := (Q * Q)%type.

(** The value under ["coordinates"], by nesting depth. *)
Inductive coords : Type :=
| CPosition (p : position)
| CLine (l : list position)
| CRings (l : list (list position))
| CPolys (l : list (list (list position))).

(** A geometry object: [geometry['type']] and [geometry['coordinates']].
    A type tag whose coordinates have another nesting depth is not
    GeoJSON; reading such a value is modelled as a [TypeError]. *)
Record Geometry : Type := mkGeometry {
  gtype : string;
  coordinates : coords
}.

(** A feature: [feature['properties']] and [feature['geometry']]. *)
Record Feature : Type := mkFeature {
  properties : list (string * string);
  geometry : Geometry
}.

(** [extract_administrative_regions] and [extract_universities], on the
    list under [data['features']]. *)
Definition property_is (feature : Feature) (key v : string) : bool :=
  match dict_get (properties feature) key with
  | Some w => String.eqb w v
  | None => false
  end.

Definition extract_administrative_regions (features : list Feature) : list Feature :=
  filter (fun feature =>
            property_is feature "boundary" "administrative"
            && property_is feature "admin_level" "9")
         features.

Definition extract_universities (features : list Feature) : list Feature :=
  filter (fun feature =>
            property_is feature "amenity" "university"
            || property_is feature "building" "university")
         features.

(** A shapely [Point]. *)
Record Point : Type := mkPoint {
  Point_x : pyfloat;
  Point_y : pyfloat
}.

Definition Point_of_position (p : position) : Point :=
  mkPoint (Fin (fst p)) (Fin (snd p)).

(** The mean of the listed vertices of a ring, coordinate by coordinate. *)
Definition vertex_mean (ring : list position) : Point :=
  mkPoint (np_mean (map fst ring)) (np_mean (map snd ring)).

(** ** [get_geometry_center] *)

Definition get_geometry_center (geometry : Geometry) : result (option Point) :=
  if (gtype geometry =? "Point")%string then
    match coordinates geometry with
    | CPosition p => Return (Some (Point_of_position p))
    | _ => Raise TypeError
    end
  else if (gtype geometry =? "Polygon")%string then
    match coordinates geometry with
    | CRings rings =>
        coords <- item0 rings ;;
        Return (Some (mkPoint (np_mean (map fst coords))
                              (np_mean (map snd coords))))
    | _ => Raise TypeError
    end
  else if (gtype geometry =? "MultiPolygon")%string then
    match coordinates geometry with
    | CPolys polys =>
        poly <- item0 polys ;;
        coords <- item0 poly ;;
        Return (Some (mkPoint (np_mean (map fst coords))
                              (np_mean (map snd coords))))
    | _ => Raise TypeError
    end
  else Return None.

(** A call that returned [True]. *)
Definition returns_true (r : result bool) : bool :=
  match r with
  | Return true => true
  | _ => false
  end.

(** ** Containment test *)

Section Aggregation.

(** The two shapely operations used by the aggregation:
    [point.is_empty] (the truth value of a geometry is [not is_empty]) and
    [Polygon(polygon_coords).contains(Point(point))], which can raise when
    the coordinates do not form a ring. *)
Variable Point_is_empty : Point -> bool.
Variable Polygon_contains : list position -> Point -> result bool.

Definition point_in_polygon (point : Point) (polygon_coords : list position)
  : result bool :=
  Polygon_contains polygon_coords point.

(** ** [count_universities_in_regions] *)

(** The value stored per region name. *)
Record RegionCount : Type := mkRegionCount {
  count : Z;
  universities : list Feature;
  region : Feature
}.

(** [for poly in region_geometry['coordinates']: all_coords.extend(poly[0])] *)
Fixpoint extend_outer_rings (polys : list (list (list position)))
  (all_coords : list position) : result (list position) :=
  match polys with
  | [] => Return all_coords
  | poly :: polys' =>
      ring <- item0 poly ;;
      extend_outer_rings polys' (all_coords ++ ring)
  end.

(** The coordinates tested for containment; [None] stands for the
    [continue] taken on any other geometry type. *)
Definition region_polygon_coords (region_geometry : Geometry)
  : result (option (list position)) :=
  if (gtype region_geometry =? "Polygon")%string then
    match coordinates region_geometry with
    | CRings rings => polygon_coords <- item0 rings ;; Return (Some polygon_coords)
    | _ => Raise TypeError
    end
  else if (gtype region_geometry =? "MultiPolygon")%string then
    match coordinates region_geometry with
    | CPolys polys =>
        all_coords <- extend_outer_rings polys [] ;;
        Return (Some all_coords)
    | _ => Raise TypeError
    end
  else Return None.

(** [uni_center and point_in_polygon([uni_center.x, uni_center.y], polygon_coords)] *)
Definition university_in_polygon (university : Feature)
  (polygon_coords : list position) : result bool :=
  uni_center <- get_geometry_center (geometry university) ;;
  match uni_center with
  | None => Return false
  | Some c =>
      if Point_is_empty c then Return false
      else point_in_polygon c polygon_coords
  end.

(** The loop over the universities for one region, with its two
    accumulators. *)
Fixpoint check_universities (polygon_coords : list position)
  (targets : list Feature) (count : Z) (region_universities : list Feature)
  : result (Z * list Feature) :=
  match targets with
  | [] => Return (count, region_universities)
  | university :: targets' =>
      inside <- university_in_polygon university polygon_coords ;;
      if inside
      then check_universities polygon_coords targets' (count + 1)%Z
             (region_universities ++ [university])
      else check_universities polygon_coords targets' count region_universities
  end.

(** The loop over the regions, threading the [region_counts] dict. *)
Fixpoint count_regions_loop (regions universities : list Feature)
  (region_counts : list (string * RegionCount))
  : result (list (string * RegionCount)) :=
  match regions with
  | [] => Return region_counts
  | region :: regions' =>
      region_name <- dict_item (properties region) "name" ;;
      polygon_coords <- region_polygon_coords (geometry region) ;;
      match polygon_coords with
      | None => count_regions_loop regions' universities region_counts
      | Some polygon_coords =>
          r <- check_universities polygon_coords universities 0%Z [] ;;
          count_regions_loop regions' universities
            (dict_set region_counts region_name
               (mkRegionCount (fst r) (snd r) region))
      end
  end.

Definition count_universities_in_regions (regions universities : list Feature)
  : result (list (string * RegionCount)) :=
  count_regions_loop regions universities [].

(** The entry stored for a region is computed from that region and the
    whole list of targets. *)
Definition entry_of_region (regions targets : list Feature)
  (e : string * RegionCount) : Prop :=
  In (region (snd e)) regions
  /\ dict_item (properties (region (snd e))) "name" = Return (fst e)
  /\ exists polygon_coords,
       region_polygon_coords (geometry (region (snd e)))
       = Return (Some polygon_coords)
       /\ universities (snd e)
          = filter (fun u => returns_true
               (university_in_polygon u polygon_coords)) targets
       /\ count (snd e)
          = Z.of_nat (List.length (universities (snd e))).

End Aggregation.

(** ** An executable containment test

    The even-odd crossing rule over exact coordinates.  It agrees with
    shapely's [contains] for points that are off the boundary of a simple
    ring, which is all the examples below use. *)

Definition Qlt_bool (a b : Q) : bool := negb (Qle_bool b a).

Definition edge_crossed (px py : Q) (a b : position) : bool :=
  let '(xi, yi) := a in
  let '(xj, yj) := b in
  negb (Bool.eqb (Qlt_bool py yi) (Qlt_bool py yj))
  && Qlt_bool px ((xj - xi) * (py - yi) / (yj - yi) + xi).

Fixpoint odd_crossings (px py : Q) (ring : list position) : bool :=
  match ring with
  | a :: (b :: _) as ring' => xorb (edge_crossed px py a b) (odd_crossings px py ring')
  | _ => false
  end.

Definition even_odd_contains (ring : list position) (p : Point) : result bool :=
  match p with
  | mkPoint (Fin px) (Fin py) => Return (odd_crossings px py ring)
  | _ => Return false
  end.

Definition nan_is_empty (p : Point) : bool :=
  match p with
  | mkPoint (Fin _) (Fin _) => false
  | _ => true
  end.

(** ** [get_color] *)

Definition hex_digit (d : Z) : ascii :=
  match String.get (Z.to_nat d) "0123456789abcdef" with
  | Some c => c
  | None => "0"%char
  end.

(** The hexadecimal digits of [n >= 0], most significant first, in front
    of [acc]; [fuel] bounds the number of digits. *)
Fixpoint hex_digits (fuel : nat) (n : Z) (acc : string) : string :=
  match fuel with
  | O => acc
  | S fuel' =>
      let acc' := String (hex_digit (n mod 16)) acc in
      if (n / 16 =? 0)%Z then acc' else hex_digits fuel' (n / 16) acc'
  end.

(** [format(n, 'x')] for [n >= 0]. *)
Definition format_x (n : Z) : string :=
  hex_digits (S (Z.to_nat (Z.log2 n))) n "".

(** [format(n, '02x')]: lower-case hexadecimal, zero-filled to two
    characters; a negative number carries its sign. *)
Definition format_02x (n : Z) : string :=
  if (n <? 0)%Z then ("-" ++ format_x (- n))%string
  else
    let s := format_x n in
    if (String.length s <? 2)%nat then ("0" ++ s)%string else s.

(** The three locals [red], [green], [blue] of [get_color] on the
    interpolating branch.  The quotient of the two integers, the product
    and the difference are float operations, each rounded by [fl]. *)
Definition get_color_channels (count min_count max_count : Z) : Z * Z * Z :=
  let normalized :=
    fl (inject_Z (count - min_count) / inject_Z (max_count - min_count)) in
  let red := py_int (fl (230 - fl (212 * normalized))) in
  let green := py_int (fl (243 - fl (233 * normalized))) in
  let blue := py_int (fl (255 - fl (112 * normalized))) in
  (red, green, blue).

Definition get_color (count min_count max_count : Z) : string :=
  if (max_count =? min_count)%Z then "#E6F3FF"%string
  else
    let '(red, green, blue) := get_color_channels count min_count max_count in
    ("#" ++ format_02x red ++ format_02x green ++ format_02x blue)%string.

(** ** Vocabulary of the specification *)

(** Linear interpolation from [a] (at 0) to [b] (at 1). *)
Definition lerp (a b : Z) (t : Q) : Q :=
  (inject_Z a + inject_Z (b - a) * t)%Q.

(** [c] is [v] with its fractional part dropped. *)
Definition truncates_to (v : Q) (c : Z) : Prop :=
  ((0 <= v -> inject_Z c <= v /\ v < inject_Z c + 1)
   /\ (v <= 0 -> inject_Z c - 1 < v /\ v <= inject_Z c))%Q.

(** The value of a string of lower-case hexadecimal digits. *)
Definition hex_digit_value (c : ascii) : option Z :=
  let n := Z.of_nat (nat_of_ascii c) in
  if ((48 <=? n) && (n <=? 57))%Z then Some (n - 48)%Z
  else if ((97 <=? n) && (n <=? 102))%Z then Some (n - 87)%Z
  else None.

Fixpoint hex_value_from (acc : Z) (s : string) : option Z :=
  match s with
  | EmptyString => Some acc
  | String c s' =>
      match hex_digit_value c with
      | Some d => hex_value_from (16 * acc + d)%Z s'
      | None => None
      end
  end.

Definition hex_value (s : string) : option Z := hex_value_from 0%Z s.


(** ** Sample data *)

Definition square_A : list position := [(0, 0); (4, 0); (4, 4); (0, 4); (0, 0)]%Q.
Definition square_B : list position := [(2, 2); (6, 2); (6, 6); (2, 6); (2, 2)]%Q.

Definition polygon_region (name : string) (ring : list position) : Feature :=
  mkFeature [("name", name)]%string (mkGeometry "Polygon" (CRings [ring])).

Definition point_university (name : string) (p : position) : Feature :=
  mkFeature [("name", name); ("amenity", "university")]%string
            (mkGeometry "Point" (CPosition p)).

Definition overlapping_regions : list Feature :=
  [polygon_region "A" square_A; polygon_region "B" square_B].

Definition campus : Feature := point_university "Campus" (3, 3)%Q.
Definition annex : Feature := point_university "Annex" (1, 1)%Q.

(** What the run on the two squares and the two point targets returns. *)
Definition overlap_counts : list (string * RegionCount) :=
  [ ("A"%string, mkRegionCount 2 [campus; annex] (polygon_region "A" square_A));
    ("B"%string, mkRegionCount 1 [campus] (polygon_region "B" square_B)) ].

Definition footpath : Geometry :=
  mkGeometry "LineString" (CLine [(0, 0); (1, 1)]%Q).

(** ** The colour scale in [create_university_map] *)

(** [min(counts) if counts else 0] and [max(counts) if counts else 1]. *)
Definition min_count_of (counts : list Z) : Z :=
  match counts with
  | [] => 0%Z
  | c :: counts' => fold_left Z.min counts' c
  end.

Definition max_count_of (counts : list Z) : Z :=
  match counts with
  | [] => 1%Z
  | c :: counts' => fold_left Z.max counts' c
  end.

(** The [color] that the loop over [region_counts.items()] computes for
    each region name. *)
Definition region_colors (region_counts : list (string * RegionCount))
  : list (string * string) :=
  let counts := map (fun item => count (snd item)) region_counts in
  let min_count := min_count_of counts in
  let max_count := max_count_of counts in
  map (fun item => (fst item, get_color (count (snd item)) min_count max_count))
      region_counts.

(** [sum([info['count'] for info in region_counts.values()])] *)
Definition total_universities (region_counts : list (string * RegionCount)) : Z :=
  fold_left Z.add (map (fun item => count (snd item)) region_counts) 0%Z.

(** The list [tick_values] that [create_color_scale_legend] builds when
    [max_val != min_val]: six values, [num_ticks - 1] being 5. *)
Definition legend_tick_values (min_val max_val : Z) : list Z :=
  map (fun i =>
         let value :=
           (inject_Z min_val
            + inject_Z ((max_val - min_val) * Z.of_nat i) / inject_Z 5)%Q in
         py_round value)
      (seq 0 6).

(** A region whose properties lack the name. *)
Definition unnamed_region : Feature :=
  mkFeature [("boundary", "administrative")]%string
            (mkGeometry "Polygon" (CRings [square_A])).

End UniversityMap.

(** * Task 2: parks against roads *)

Module GeospatialAnalysis.

(** ** Strings and cells *)

(** A Python [str] is a sequence of Unicode code points. *)
Definition pystr : Type := list N.

(** The code points of an ASCII literal. *)
Definition py (s : string) : pystr := map N_of_ascii (list_ascii_of_string s).

(** A present cell of a data frame.  A missing cell ([None], [NaN]) is
    the [None] of [option value]. *)
Inductive value : Type :=
| VStr (s : pystr)
| VInt (z : Z).

Definition value_eq_dec (v w : value) : {v = w} + {v <> w}.
Proof.
  decide equality.
  - apply (list_eq_dec N.eq_dec).
  - apply Z.eq_dec.
Defined.

(** Characters with a meaning of their own in a regular expression:
    [. ^ $ * + ? { } [ ] \ | ( )]. *)
Definition regex_special : list N :=
  [46; 94; 36; 42; 43; 63; 123; 125; 91; 93; 92; 124; 40; 41]%N.

Definition is_literal (pat : pystr) : bool :=
  forallb (fun c => negb (existsb (N.eqb c) regex_special)) pat.

Section Search.

(** Whether, with [re.IGNORECASE], the character [p] of a pattern matches
    the character [c] of the searched string.  The test is the regular
    expression engine's own, read off its Unicode case tables. *)
Variable char_matches : N -> N -> bool.

Fixpoint starts_with_ci (pat s : pystr) : bool :=
  match pat, s with
  | [], _ => true
  | p :: pat', c :: s' => char_matches p c && starts_with_ci pat' s'
  | _ :: _, [] => false
  end.

(** Search of a literal pattern anywhere in [s], ignoring case. *)
Fixpoint search_ci (pat s : pystr) : bool :=
  starts_with_ci pat s
  || match s with
     | [] => false
     | _ :: s' => search_ci pat s'
     end.

End Search.

(** ** Data frames *)

Section Frames.

Variable Geom : Type.

(** A row: its index label, its geometry and its present cells. *)
Record Row : Type := mkRow {
  label : Z;
  geometry : Geom;
  cells : list (string * value)
}.

Record GeoDataFrame : Type := mkFrame {
  columns : list string;
  rows : list Row
}.

(** ['col' in frame.columns] *)
Definition has_column (frame : GeoDataFrame) (col : string) : bool :=
  existsb (String.eqb col) (columns frame).

(** The cell of a row in a column; [None] when it is missing. *)
Definition cell (r : Row) (col : string) : option value :=
  dict_get (cells r) col.

(** [frame[col]] as the list of its cells; [KeyError] without the column. *)
Definition column (frame : GeoDataFrame) (col : string)
  : result (list (option value)) :=
  if has_column frame col
  then Return (map (fun r => cell r col) (rows frame))
  else Raise KeyError.

(** [frame[mask]] for a boolean mask aligned with the rows. *)
Definition select (frame : GeoDataFrame) (mask : list bool) : GeoDataFrame :=
  mkFrame (columns frame)
    (map fst (filter snd (combine (rows frame) mask))).

(** [frame.iloc[[0]]] *)
Definition iloc0 (frame : GeoDataFrame) : result GeoDataFrame :=
  match rows frame with
  | r :: _ => Return (mkFrame (columns frame) [r])
  | [] => Raise IndexError
  end.

(** [frame.loc[idx, col]]: the cell of the row labelled [idx].  Labels
    are distinct in a frame read from a file and in what [clip] keeps of
    it; the properties below assume so where they use [loc]. *)
Definition loc (frame : GeoDataFrame) (idx : Z) (col : string)
  : result (option value) :=
  match find (fun r => (label r =? idx)%Z) (rows frame) with
  | Some r => Return (cell r col)
  | None => Raise KeyError
  end.

(** [frame[col] = v] for a scalar [v]. *)
Definition set_column (frame : GeoDataFrame) (col : string) (v : value)
  : GeoDataFrame :=
  mkFrame
    (if has_column frame col then columns frame else columns frame ++ [col])
    (map (fun r => mkRow (label r) (geometry r) (dict_set (cells r) col v))
         (rows frame)).

(** [series.nunique()]: distinct values, missing cells dropped. *)
Definition dropna (series : list (option value)) : list value :=
  flat_map (fun c => match c with Some v => [v] | None => [] end) series.

Definition nunique (series : list (option value)) : Z :=
  Z.of_nat (List.length (nodup value_eq_dec (dropna series))).

(** ** Boundary resolution *)

Variable char_matches : N -> N -> bool.

(** [re.compile(pat, re.IGNORECASE)] for a pattern that uses regular
    expression syntax: the search function of the compiled pattern, or
    [None] when the pattern is ill-formed and [re.error] is raised. *)
Variable re_compile_ignorecase : pystr -> option (pystr -> bool).

(** The search that [str.contains] compiles from [pat].  A pattern free
    of regular expression syntax always compiles, into [search_ci]. *)
Definition compile_pattern (pat : pystr) : result (pystr -> bool) :=
  if is_literal pat then Return (search_ci char_matches pat)
  else
    match re_compile_ignorecase pat with
    | Some search => Return search
    | None => Raise ReError
    end.

(** One entry of the mask: a cell that is missing or not a string counts
    as no match ([na=False]). *)
Definition contains_entry (search : pystr -> bool) (c : option value) : bool :=
  match c with
  | Some (VStr s) => search s
  | _ => false
  end.

(** [series.str.contains(pat, case=False, na=False)]: the pattern is
    compiled before any cell is read. *)
Definition str_contains (series : list (option value)) (pat : pystr)
  : result (list bool) :=
  search <- compile_pattern pat ;;
  Return (map (contains_entry search) series).

(** The [for variant in irkutsk_variants] loop; [None] is the value
    [irkutsk_boundary] keeps when the loop ends without a [break]. *)
Fixpoint boundary_loop (variants : list pystr) (settlements : GeoDataFrame)
  : result (option GeoDataFrame) :=
  match variants with
  | [] => Return None
  | variant :: variants' =>
      if has_column settlements "name" then
        names <- column settlements "name" ;;
        mask <- str_contains names variant ;;
        if existsb (fun b => b) mask
        then Return (Some (select settlements mask))
        else boundary_loop variants' settlements
      else boundary_loop variants' settlements
  end.

Definition irkutsk_boundary (variants : list pystr) (settlements : GeoDataFrame)
  : result GeoDataFrame :=
  found <- boundary_loop variants settlements ;;
  match found with
  | None => iloc0 settlements
  | Some boundary =>
      if (List.length (rows boundary) =? 0)%nat then iloc0 settlements
      else Return boundary
  end.

(** ** Geometry operations of geopandas *)

Variable distance : Geom -> Geom -> Q.
Variable buffer : Geom -> Q -> Geom.
Variable intersects : Geom -> Geom -> bool.
Variable intersection : Geom -> Geom -> Geom.
Variable union_all : list Geom -> Geom.

(** [gpd.clip(gdf, mask)]: the rows that meet the mask, each cut to it.
    The rows keep the index labels they had in [gdf].  [gpd.clip] hands
    them out in the order in which its spatial index finds them, which
    need not be the order of [gdf]; the list below is in the order of
    [gdf], and no property stated about a clipped frame depends on the
    order of its rows. *)
Definition clip (gdf mask : GeoDataFrame) : GeoDataFrame :=
  let m := union_all (map geometry (rows mask)) in
  mkFrame (columns gdf)
    (map (fun r => mkRow (label r) (intersection (geometry r) m) (cells r))
         (filter (fun r => intersects (geometry r) m) (rows gdf))).

(** ** Road category column *)

Definition possible_columns : list string :=
  ["type"; "road_type"; "highway"; "class"; "category"; "fclass"]%string.

(** The frame and the column name left by the module-level search for
    [road_type_column]. *)
Definition resolve_road_type_column (roads_clipped : GeoDataFrame)
  : GeoDataFrame * string :=
  match find (has_column roads_clipped) possible_columns with
  | Some col => (roads_clipped, col)
  | None =>
      (set_column roads_clipped "road_type" (VStr (py "road")), "road_type"%string)
  end.

(** ** [count_unique_roads_in_radius]

    [road_type_column] is the module-level variable the function reads. *)
Definition count_unique_roads_in_radius (road_type_column : string)
  (park : Row) (roads : GeoDataFrame) (radius : Q) : result Z :=
  let buffer := buffer (geometry park) radius in
  let intersecting_roads :=
    mkFrame (columns roads)
      (filter (fun r => intersects (geometry r) buffer) (rows roads)) in
  if (0 <? List.length (rows intersecting_roads))%nat then
    series <- column intersecting_roads road_type_column ;;
    Return (nunique series)
  else Return 0%Z.

(** ** [min_distance_to_road] *)

(** The first entry of a series that no later entry undercuts. *)
Fixpoint first_min (best : Z * Q) (series : list (Z * Q)) : Z * Q :=
  match series with
  | [] => best
  | e :: series' =>
      first_min (if Qle_bool (snd best) (snd e) then best else e) series'
  end.

(** [series.min()]: [nan] on an empty series. *)
Definition series_min (series : list (Z * Q)) : pyfloat :=
  match series with
  | [] => NaN
  | e :: series' => Fin (snd (first_min e series'))
  end.

(** [series.idxmin()]: the label of the first minimum; [ValueError] on
    an empty series. *)
Definition idxmin (series : list (Z * Q)) : result Z :=
  match series with
  | [] => Raise ValueError
  | e :: series' => Return (fst (first_min e series'))
  end.

Definition min_distance_to_road (park : Row) (roads : GeoDataFrame)
  : result (pyfloat * option value) :=
  let distances :=
    map (fun r => (label r, distance (geometry r) (geometry park))) (rows roads) in
  let min_dist := series_min distances in
  nearest_road_idx <- idxmin distances ;;
  if has_column roads "id" then
    nearest_road_id <- loc roads nearest_road_idx "id" ;;
    Return (min_dist, nearest_road_id)
  else
    Return (min_dist, Some (VInt nearest_road_idx)).

End Frames.

(** [irkutsk_variants] of the script: the city name in Cyrillic with a
    capital initial, in Latin, in Cyrillic lower case, in Latin capitals. *)
Definition irkutsk_variants : list pystr :=
  [ [1048; 1088; 1082; 1091; 1090; 1089; 1082]%N;
    py "Irkutsk";
    [1080; 1088; 1082; 1091; 1090; 1089; 1082]%N;
    py "IRKUTSK" ].

(** A case test for the examples: it folds the capitals A-Z and the
    Cyrillic capitals U+0410-U+042F onto their small letters and knows
    no other pair.  For a pattern character and a character that are
    both ASCII or both among the Cyrillic letters U+0410-U+044F it is the
    test of the regular expression engine. *)
Definition lower (c : N) : N :=
  if ((65 <=? c) && (c <=? 90))%N then (c + 32)%N
  else if ((1040 <=? c) && (c <=? 1071))%N then (c + 32)%N
  else c.

Definition lower_matches (p c : N) : bool := (lower p =? lower c)%N.

(** What [re.compile] makes of two one-character patterns: [.] matches
    every character but a line feed, and [(] is ill-formed.  The examples
    use no other pattern with regular expression syntax. *)
Definition re_compile_sample (pat : pystr) : option (pystr -> bool) :=
  match pat with
  | [46%N] => Some (existsb (fun c => negb (c =? 10)%N))
  | _ => None
  end.

(** A frame as [read_file] builds it: labels 0, 1, 2, ... *)
Definition range_indexed {Geom : Type} (frame : GeoDataFrame Geom) : Prop :=
  map (@label Geom) (rows frame)
  = map Z.of_nat (seq 0 (List.length (rows frame))).

(** ** An executable geometry: intervals of a line

    A geometry is a closed interval [(lo, hi)] of the x-axis, a point
    being [(a, a)].  Distance, buffer and intersection are the planar
    ones restricted to that axis. *)
Module Line.

Definition Geom : Type := (Q * Q)%type.

Definition Qmax (a b : Q) : Q := if Qle_bool a b then b else a.
Definition Qmin (a b : Q) : Q := if Qle_bool a b then a else b.

Definition distance (a b : Geom) : Q :=
  Qmax 0 (Qmax (fst a - snd b) (fst b - snd a)).

Definition buffer (g : Geom) (radius : Q) : Geom :=
  (fst g - radius, snd g + radius)%Q.

Definition intersects (a b : Geom) : bool :=
  Qle_bool (fst a) (snd b) && Qle_bool (fst b) (snd a).

Definition intersection (a b : Geom) : Geom :=
  (Qmax (fst a) (fst b), Qmin (snd a) (snd b)).

(** The hull of the intervals, which is their union when they overlap
    or when there is only one. *)
Definition union_all (l : list Geom) : Geom :=
  match l with
  | [] => (1, 0)%Q
  | g :: l' =>
      fold_left (fun h a => (Qmin (fst h) (fst a), Qmax (snd h) (snd a))) l' g
  end.

End Line.

(** ** Vocabulary of the specification *)

(** [s] contains [pat] as a substring when case is ignored. *)
Definition contains_ci (char_matches : N -> N -> bool) (pat s : pystr) : Prop :=
  exists pre mid post : pystr,
    s = pre ++ mid ++ post
    /\ Forall2 (fun p c => char_matches p c = true) pat mid.

(** Every code point of [s] is below 128. *)
Definition is_ascii (s : pystr) : bool := forallb (fun c => (c <? 128)%N) s.

(** The name of a candidate contains the variant; a candidate without a
    name does not match. *)
Definition name_matches {Geom : Type} (char_matches : N -> N -> bool)
    (variant : pystr) (r : Row Geom) : Prop :=
  exists s, cell r "name" = Some (VStr s) /\ contains_ci char_matches variant s.

(** The identifier read as a position: the [id] cell of the row at
    position [i] when there is an [id] column, and [i] itself otherwise. *)
Definition positional_road_id {Geom : Type} (roads : GeoDataFrame Geom) (i : nat)
  : option value :=
  if has_column roads "id" then
    match nth_error (rows roads) i with
    | Some r => cell r "id"
    | None => None
    end
  else Some (VInt (Z.of_nat i)).

(** ** Sample data on the line *)

Definition settlement (i : Z) (name : string) (g : Line.Geom) : Row Line.Geom :=
  mkRow i g [("name"%string, VStr (py name))].

Definition candidates : GeoDataFrame Line.Geom :=
  mkFrame ["name"; "geometry"]%string
    [ settlement 0 "Irkutsk City" (0, 1000)%Q;
      settlement 1 "Other Town" (5000, 6000)%Q ].

Definition road (i : Z) (g : Line.Geom) (highway : option string) : Row Line.Geom :=
  mkRow i g
    match highway with
    | Some c => [("highway"%string, VStr (py c))]
    | None => []
    end.

(** Three roads as read from a file; the first lies outside the city. *)
Definition roads_read : GeoDataFrame Line.Geom :=
  mkFrame ["highway"; "geometry"]%string
    [ road 0 (1500, 1600)%Q (Some "track"%string);
      road 1 (300, 400)%Q (Some "primary"%string);
      road 2 (700, 800)%Q (Some "secondary"%string) ].

Definition city : GeoDataFrame Line.Geom :=
  mkFrame ["name"; "geometry"]%string [settlement 0 "Irkutsk City" (0, 1000)%Q].

Definition roads_in_city : GeoDataFrame Line.Geom :=
  clip Line.intersects Line.intersection Line.union_all roads_read city.

Definition park_250 : Row Line.Geom := mkRow 0 (250, 250)%Q [].

(** Road A at distance 50 of the park, road B at distance 150. *)
Definition roads_A_B : GeoDataFrame Line.Geom :=
  mkFrame ["highway"; "geometry"]%string
    [ road 0 (300, 350)%Q (Some "primary"%string);
      road 1 (400, 450)%Q (Some "secondary"%string) ].

(** A road next to the park whose category cell is missing. *)
Definition roads_untyped : GeoDataFrame Line.Geom :=
  mkFrame ["highway"; "geometry"]%string
    [ road 0 (300, 400)%Q None;
      road 1 (5000, 5100)%Q (Some "primary"%string) ].

(** Candidates whose frame has no [name] column. *)
Definition candidates_untitled : GeoDataFrame Line.Geom :=
  mkFrame ["title"; "geometry"]%string
    [ mkRow 0 (5000, 6000)%Q [("title"%string, VStr (py "Other Town"))];
      mkRow 1 (0, 1000)%Q [("title"%string, VStr (py "Irkutsk City"))] ].

(** Roads without any of the category columns. *)
Definition roads_plain : GeoDataFrame Line.Geom :=
  mkFrame ["geometry"]%string
    [ mkRow 0 (300, 350)%Q []; mkRow 1 (400, 450)%Q [] ].

End GeospatialAnalysis.

(** * Properties *)

Lemma np_mean_is_mean (l : list Q) : is_mean l (np_mean l).
Proof.
  destruct l as [|a l]; [exact I|].
  unfold np_mean, is_mean.
  set (n := inject_Z (Z.of_nat (List.length (a :: l)))).
  assert (Hn : ~ (n == 0)%Q).
  { unfold n, Qeq; simpl. lia. }
  field. exact Hn.
Qed.

Lemma bind_Return_inv {A B : Type} (c : result A) (k : A -> result B) (b : B) :
  (x <- c ;; k x) = Return b -> exists a, c = Return a /\ k a = Return b.
Proof.
  destruct c as [a|e]; simpl; intros H; [eauto | discriminate].
Qed.

Lemma In_dict_set {V : Type} (d : list (string * V)) (key : string) (v : V)
  (e : string * V) :
  In e (dict_set d key v) -> e = (key, v) \/ In e d.
Proof.
  induction d as [|[k w] d IH]; simpl.
  - intros [H|[]]; auto.
  - destruct (String.eqb_spec k key) as [->|Hk]; simpl.
    + intros [H|H]; auto.
    + intros [H|H]; auto. destruct (IH H); auto.
Qed.

Lemma Subsequence_filter {A : Type} (f : A -> bool) (l : list A) :
  Subsequence (filter f l) l.
Proof.
  induction l as [|a l IH]; simpl.
  - constructor.
  - destruct (f a); constructor; exact IH.
Qed.

Lemma dict_get_set_same {V : Type} (d : list (string * V)) (key : string) (v : V) :
  dict_get (dict_set d key v) key = Some v.
Proof.
  induction d as [|[k w] d IH]; simpl.
  - rewrite String.eqb_refl. reflexivity.
  - destruct (String.eqb_spec k key) as [->|Hk]; simpl.
    + rewrite String.eqb_refl. reflexivity.
    + destruct (String.eqb_spec k key); [contradiction|]. exact IH.
Qed.

Lemma dict_get_set_other {V : Type} (d : list (string * V)) (key key' : string)
  (v : V) :
  key <> key' -> dict_get (dict_set d key v) key' = dict_get d key'.
Proof.
  intros Hne. induction d as [|[k w] d IH]; simpl.
  - destruct (String.eqb_spec key key'); [contradiction|]. reflexivity.
  - destruct (String.eqb_spec k key) as [->|Hk]; simpl.
    + destruct (String.eqb_spec key key'); [contradiction|]. reflexivity.
    + destruct (String.eqb_spec k key'); [reflexivity|]. exact IH.
Qed.

Lemma dict_set_keys {V : Type} (d : list (string * V)) (key : string) (v : V) :
  map fst (dict_set d key v)
  = if existsb (String.eqb key) (map fst d) then map fst d
    else map fst d ++ [key].
Proof.
  induction d as [|[k w] d IH]; simpl; [reflexivity|].
  rewrite (String.eqb_sym key k).
  destruct (String.eqb_spec k key) as [->|Hk]; simpl; [reflexivity|].
  rewrite IH. destruct (existsb (String.eqb key) (map fst d)); reflexivity.
Qed.

Lemma dict_set_NoDup {V : Type} (d : list (string * V)) (key : string) (v : V) :
  NoDup (map fst d) -> NoDup (map fst (dict_set d key v)).
Proof.
  intros Hnd. rewrite dict_set_keys.
  destruct (existsb (String.eqb key) (map fst d)) eqn:E; [exact Hnd|].
  apply NoDup_app; [exact Hnd | repeat constructor; intros [] |].
  intros k Hk [Heq|[]]. subst k.
  assert (Ht : existsb (String.eqb key) (map fst d) = true).
  { apply existsb_exists. exists key. split; [exact Hk | apply String.eqb_refl]. }
  rewrite Ht in E. discriminate E.
Qed.

Lemma dict_set_length {V : Type} (d : list (string * V)) (key : string) (v : V) :
  (List.length (dict_set d key v) <= S (List.length d))%nat.
Proof.
  induction d as [|[k w] d IH]; simpl; [lia|].
  destruct (String.eqb k key); simpl; lia.
Qed.

(** ** Rounding *)

Lemma py_round_of_Z (v : Q) (z : Z) : (v == inject_Z z)%Q -> py_round v = z.
Proof.
  intros Hv. unfold py_round.
  rewrite (Qfloor_comp _ _ Hv), Qfloor_Z.
  assert (Hlt : (v - inject_Z z < 1 # 2)%Q) by (rewrite Hv; lra).
  destruct (Qcompare_spec (v - inject_Z z) (1 # 2)) as [He|Hl|Hg];
    [lra | reflexivity | lra].
Qed.

(** [py_round v] is [Qfloor v] or the integer after it. *)
Lemma py_round_cases (v : Q) :
  (py_round v = Qfloor v /\ (v - inject_Z (Qfloor v) <= 1 # 2)%Q)
  \/ (py_round v = (Qfloor v + 1)%Z /\ (1 # 2 <= v - inject_Z (Qfloor v))%Q).
Proof.
  unfold py_round.
  destruct (Qcompare_spec (v - inject_Z (Qfloor v)) (1 # 2)) as [He|Hl|Hg].
  - destruct (Z.even (Qfloor v)); [left|right]; (split; [reflexivity|lra]).
  - left. split; [reflexivity|lra].
  - right. split; [reflexivity|lra].
Qed.

Lemma py_round_mono (v w : Q) : (v <= w)%Q -> (py_round v <= py_round w)%Z.
Proof.
  intros Hle.
  pose proof (Qfloor_resp_le _ _ Hle) as Hf.
  destruct (Z.eq_dec (Qfloor v) (Qfloor w)) as [Heq|Hne].
  - unfold py_round. rewrite <- Heq.
    destruct (Qcompare_spec (v - inject_Z (Qfloor v)) (1 # 2)) as [He|Hl|Hg];
      destruct (Qcompare_spec (w - inject_Z (Qfloor v)) (1 # 2)) as [He'|Hl'|Hg'];
      try lia; try lra; destruct (Z.even (Qfloor v)); try lia; lra.
  - destruct (py_round_cases v) as [[-> _]|[-> _]];
      destruct (py_round_cases w) as [[-> _]|[-> _]]; lia.
Qed.

Lemma py_round_comp (v w : Q) : (v == w)%Q -> py_round v = py_round w.
Proof.
  intros H. unfold py_round. rewrite (Qfloor_comp _ _ H).
  assert (E : (v - inject_Z (Qfloor w) == w - inject_Z (Qfloor w))%Q) by (rewrite H; reflexivity).
  rewrite (Qcompare_comp _ _ E _ _ (Qeq_refl (1#2))). reflexivity.
Qed.

Lemma py_round_near (v : Q) :
  (v - (1 # 2) <= inject_Z (py_round v) /\ inject_Z (py_round v) <= v + (1 # 2))%Q.
Proof.
  pose proof (Qfloor_le v) as H1. pose proof (Qlt_floor v) as H2.
  rewrite inject_Z_plus in H2. change (inject_Z 1) with 1%Q in H2.
  destruct (py_round_cases v) as [[-> H]|[-> H]].
  - split; lra.
  - rewrite inject_Z_plus. change (inject_Z 1) with 1%Q. split; lra.
Qed.

Lemma pow2_pos (e : Z) : (0 < pow2 e)%Q.
Proof. apply Qpower_0_lt. reflexivity. Qed.

Lemma pow2_add (a b : Z) : (pow2 (a + b) == pow2 a * pow2 b)%Q.
Proof. apply Qpower_plus. discriminate. Qed.

Lemma pow2_le (a b : Z) : (a <= b)%Z -> (pow2 a <= pow2 b)%Q.
Proof. intros H. apply Qpower_le_compat_l; [exact H|]. unfold Qle; simpl; lia. Qed.

Lemma pow2_lt_inv (a b : Z) : (pow2 a < pow2 b)%Q -> (a < b)%Z.
Proof. intros H. apply Qpower_lt_compat_l_inv with (q := 2%Q); [exact H|reflexivity]. Qed.

Lemma pow2_Z (e : Z) : (0 <= e)%Z -> (pow2 e == inject_Z (2 ^ e))%Q.
Proof. intros H. unfold pow2. rewrite Zpower_Qpower by exact H. reflexivity. Qed.

Lemma Qlog2_spec (x : Q) :
  (0 < x)%Q -> (pow2 (Qlog2 x) <= x /\ x < pow2 (Qlog2 x + 1))%Q.
Proof.
  intros Hx. unfold Qlog2.
  set (a := Z.log2 (Qnum x)). set (b := Z.log2 (Zpos (Qden x))).
  assert (Hn : (0 < Qnum x)%Z).
  { unfold Qlt in Hx. simpl in Hx. lia. }
  destruct (Z.log2_spec (Qnum x) Hn) as [Ha1 Ha2]. fold a in Ha1, Ha2.
  destruct (Z.log2_spec (Zpos (Qden x)) ltac:(lia)) as [Hb1 Hb2]. fold b in Hb1, Hb2.
  assert (Ha0 : (0 <= a)%Z) by apply Z.log2_nonneg.
  assert (Hb0 : (0 <= b)%Z) by apply Z.log2_nonneg.
  assert (Hxn : (x == inject_Z (Qnum x) / inject_Z (Zpos (Qden x)))%Q).
  { destruct x as [n d]. simpl. unfold Qeq, Qdiv, Qmult, Qinv. simpl. lia. }
  assert (Hd : (0 < inject_Z (Zpos (Qden x)))%Q) by (unfold Qlt; simpl; lia).
  assert (Hup : (x < pow2 (a - b + 1))%Q).
  { assert (E : (pow2 (a - b + 1) * pow2 b == pow2 (a + 1))%Q).
    { rewrite <- pow2_add. f_equiv. lia. }
    apply Qmult_lt_r with (z := pow2 b); [apply pow2_pos|].
    rewrite E, (pow2_Z (e := b)) by lia. rewrite (pow2_Z (e := a + 1)) by lia.
    rewrite Hxn.
    apply Qmult_lt_r with (z := inject_Z (Zpos (Qden x))); [exact Hd|].
    assert (E2 : (inject_Z (Qnum x) / inject_Z (Z.pos (Qden x)) * inject_Z (2 ^ b)
                  * inject_Z (Z.pos (Qden x)) == inject_Z (Qnum x * 2 ^ b))%Q).
    { rewrite inject_Z_mult. field. intros H0. rewrite H0 in Hd. discriminate Hd. }
    rewrite E2, <- inject_Z_mult, <- Zlt_Qlt.
    change (Z.succ a) with (a + 1)%Z in Ha2. nia. }
  assert (Hlow : (pow2 (a - b - 1) <= x)%Q).
  { assert (E : (pow2 (a - b - 1) * pow2 (b + 1) == pow2 a)%Q).
    { rewrite <- pow2_add. f_equiv. lia. }
    apply Qmult_le_r with (z := pow2 (b + 1)); [apply pow2_pos|].
    rewrite E, (pow2_Z (e := b + 1)) by lia. rewrite (pow2_Z (e := a)) by lia.
    rewrite Hxn.
    apply Qmult_le_r with (z := inject_Z (Zpos (Qden x))); [exact Hd|].
    assert (E2 : (inject_Z (Qnum x) / inject_Z (Z.pos (Qden x)) * inject_Z (2 ^ (b + 1))
                  * inject_Z (Z.pos (Qden x)) == inject_Z (Qnum x * 2 ^ (b + 1)))%Q).
    { rewrite inject_Z_mult. field. intros H0. rewrite H0 in Hd. discriminate Hd. }
    rewrite E2, <- inject_Z_mult, <- Zle_Qle.
    change (Z.succ b) with (b + 1)%Z in Hb2. nia. }
  destruct (Qle_bool (pow2 (a - b)) x) eqn:Ecmp.
  - apply Qle_bool_iff in Ecmp. split; assumption.
  - assert (Hlt : (x < pow2 (a - b))%Q).
    { apply Qnot_le_lt. intros H. apply Qle_bool_iff in H. rewrite H in Ecmp. discriminate. }
    split; [exact Hlow|].
    replace (a - b - 1 + 1)%Z with (a - b)%Z by lia. exact Hlt.
Qed.

Lemma Qlog2_unique (x : Q) (L : Z) :
  (pow2 L <= x)%Q -> (x < pow2 (L + 1))%Q -> Qlog2 x = L.
Proof.
  intros H1 H2.
  assert (Hx : (0 < x)%Q) by (pose proof (pow2_pos L); lra).
  destruct (Qlog2_spec Hx) as [S1 S2].
  assert (A : (Qlog2 x < L + 1)%Z) by (apply pow2_lt_inv; lra).
  assert (B : (L < Qlog2 x + 1)%Z) by (apply pow2_lt_inv; lra).
  lia.
Qed.

Lemma Qlog2_comp (x y : Q) : (0 < x)%Q -> (x == y)%Q -> Qlog2 x = Qlog2 y.
Proof.
  intros Hx E. symmetry. 
  destruct (Qlog2_spec Hx) as [S1 S2].
  apply Qlog2_unique; rewrite <- E; assumption.
Qed.

Lemma Qlog2_mono (x y : Q) : (0 < x)%Q -> (x <= y)%Q -> (Qlog2 x <= Qlog2 y)%Z.
Proof.
  intros Hx Hle.
  destruct (Qlog2_spec Hx) as [S1 S2].
  assert (Hy : (0 < y)%Q) by lra.
  destruct (Qlog2_spec Hy) as [T1 T2].
  assert (A : (Qlog2 x < Qlog2 y + 1)%Z) by (apply pow2_lt_inv; lra).
  lia.
Qed.

(** The scaled value lies in [2^52, 2^53). *)
Lemma scaled_range (x : Q) :
  (0 < x)%Q ->
  (pow2 52 <= x / pow2 (Qlog2 x - 52) /\ x / pow2 (Qlog2 x - 52) < pow2 53)%Q.
Proof.
  intros Hx. destruct (Qlog2_spec Hx) as [S1 S2].
  set (L := Qlog2 x) in *.
  pose proof (pow2_pos (L - 52)) as Hp.
  assert (E1 : (pow2 52 * pow2 (L - 52) == pow2 L)%Q).
  { rewrite <- pow2_add. f_equiv. lia. }
  assert (E2 : (pow2 53 * pow2 (L - 52) == pow2 (L + 1))%Q).
  { rewrite <- pow2_add. f_equiv. lia. }
  split.
  - apply Qle_shift_div_l; [exact Hp|]. rewrite E1. exact S1.
  - apply Qlt_shift_div_r; [exact Hp|]. rewrite E2. exact S2.
Qed.

Lemma fl_pos_bounds (x : Q) :
  (0 < x)%Q -> (pow2 (Qlog2 x) <= fl_pos x /\ fl_pos x <= pow2 (Qlog2 x + 1))%Q.
Proof.
  intros Hx. unfold fl_pos.
  destruct (scaled_range Hx) as [R1 R2].
  set (L := Qlog2 x) in *. set (s := (x / pow2 (L - 52))%Q) in *.
  pose proof (pow2_pos (L - 52)) as Hp.
  assert (M1 : (2 ^ 52 <= py_round s)%Z).
  { rewrite <- (py_round_of_Z (v := pow2 52) (z := 2 ^ 52)) by (apply pow2_Z; lia).
    apply py_round_mono. exact R1. }
  assert (M2 : (py_round s <= 2 ^ 53)%Z).
  { rewrite <- (py_round_of_Z (v := pow2 53) (z := 2 ^ 53)) by (apply pow2_Z; lia).
    apply py_round_mono. lra. }
  assert (E1 : (pow2 52 * pow2 (L - 52) == pow2 L)%Q).
  { rewrite <- pow2_add. f_equiv. lia. }
  assert (E2 : (pow2 53 * pow2 (L - 52) == pow2 (L + 1))%Q).
  { rewrite <- pow2_add. f_equiv. lia. }
  rewrite Zle_Qle in M1, M2.
  rewrite <- (pow2_Z (e := 52)) in M1 by lia.
  rewrite <- (pow2_Z (e := 53)) in M2 by lia.
  split.
  - rewrite <- E1. apply Qmult_le_compat_r; [exact M1|lra].
  - rewrite <- E2. apply Qmult_le_compat_r; [exact M2|lra].
Qed.

Lemma fl_pos_comp (x y : Q) : (0 < x)%Q -> (x == y)%Q -> (fl_pos x == fl_pos y)%Q.
Proof.
  intros Hx E. unfold fl_pos. rewrite (Qlog2_comp Hx E).
  assert (E' : (x / pow2 (Qlog2 y - 52) == y / pow2 (Qlog2 y - 52))%Q) by (rewrite E; reflexivity).
  rewrite (py_round_comp E'). reflexivity.
Qed.

Lemma fl_pos_mono (x y : Q) : (0 < x)%Q -> (x <= y)%Q -> (fl_pos x <= fl_pos y)%Q.
Proof.
  intros Hx Hle. assert (Hy : (0 < y)%Q) by lra.
  pose proof (Qlog2_mono Hx Hle) as HL.
  destruct (Z.eq_dec (Qlog2 x) (Qlog2 y)) as [E|NE].
  - unfold fl_pos. rewrite E.
    pose proof (pow2_pos (Qlog2 y - 52)) as Hp.
    apply Qmult_le_compat_r; [|lra].
    rewrite <- Zle_Qle. apply py_round_mono.
    apply Qmult_le_compat_r; [exact Hle|].
    apply Qlt_le_weak. apply Qinv_lt_0_compat. exact Hp.
  - destruct (fl_pos_bounds Hx) as [_ B1]. destruct (fl_pos_bounds Hy) as [B2 _].
    apply Qle_trans with (pow2 (Qlog2 x + 1)); [exact B1|].
    apply Qle_trans with (pow2 (Qlog2 y)); [|exact B2].
    apply pow2_le. lia.
Qed.

Lemma fl_pos_positive (x : Q) : (0 < x)%Q -> (0 < fl_pos x)%Q.
Proof.
  intros Hx. destruct (fl_pos_bounds Hx) as [B _].
  pose proof (pow2_pos (Qlog2 x)). lra.
Qed.

Lemma fl_comp (x y : Q) : (x == y)%Q -> (fl x == fl y)%Q.
Proof.
  intros E. unfold fl.
  rewrite (Qcompare_comp _ _ E _ _ (Qeq_refl 0)).
  destruct (Qcompare_spec y 0) as [H|H|H].
  - reflexivity.
  - assert (Hx : (0 < - x)%Q) by (rewrite E; lra).
    assert (E' : (- x == - y)%Q) by (rewrite E; reflexivity).
    rewrite (fl_pos_comp Hx E'). reflexivity.
  - assert (Hx : (0 < x)%Q) by (rewrite E; lra).
    apply fl_pos_comp; assumption.
Qed.

#[global] Instance fl_Proper : Proper (Qeq ==> Qeq) fl.
Proof. intros x y E. apply fl_comp. exact E. Qed.

Lemma fl_mono (x y : Q) : (x <= y)%Q -> (fl x <= fl y)%Q.
Proof.
  intros Hle. unfold fl.
  destruct (Qcompare_spec x 0) as [Hx|Hx|Hx];
    destruct (Qcompare_spec y 0) as [Hy|Hy|Hy].
  - lra.
  - exfalso. rewrite Hx in Hle. lra.
  - pose proof (fl_pos_positive Hy). lra.
  - assert (H : (0 < - x)%Q) by lra. pose proof (fl_pos_positive H). lra.
  - assert (H : (0 < - y)%Q) by lra.
    assert (H' : (- y <= - x)%Q) by lra.
    pose proof (fl_pos_mono H H'). lra.
  - assert (H : (0 < - x)%Q) by lra. pose proof (fl_pos_positive H).
    pose proof (fl_pos_positive Hy). lra.
  - exfalso. rewrite Hy in Hle. lra.
  - exfalso. lra.
  - apply fl_pos_mono; assumption.
Qed.

(** The relative error of a rounding is at most [2^-53]. *)
Lemma fl_pos_error (x : Q) :
  (0 < x)%Q ->
  (x - x * pow2 (-53) <= fl_pos x /\ fl_pos x <= x + x * pow2 (-53))%Q.
Proof.
  intros Hx. unfold fl_pos.
  destruct (Qlog2_spec Hx) as [S1 _].
  set (L := Qlog2 x) in *.
  pose proof (pow2_pos (L - 52)) as Hp.
  destruct (py_round_near (x / pow2 (L - 52))) as [N1 N2].
  set (m := inject_Z (py_round (x / pow2 (L - 52)))) in *.
  assert (Ex : (x / pow2 (L - 52) * pow2 (L - 52) == x)%Q).
  { field. intros H0. rewrite H0 in Hp. discriminate Hp. }
  assert (Eh : ((1 # 2) * pow2 (L - 52) == pow2 (L - 53))%Q).
  { replace (L - 52)%Z with (1 + (L - 53))%Z by lia. rewrite pow2_add.
    change (pow2 1) with 2%Q. field. }
  assert (Eu : (pow2 L * pow2 (-53) == pow2 (L - 53))%Q).
  { rewrite <- pow2_add. f_equiv. }
  assert (Hu : (pow2 (L - 53) <= x * pow2 (-53))%Q).
  { rewrite <- Eu. apply Qmult_le_compat_r; [exact S1|].
    apply Qlt_le_weak. apply pow2_pos. }
  assert (A1 : ((x / pow2 (L - 52) - (1 # 2)) * pow2 (L - 52) <= m * pow2 (L - 52))%Q).
  { apply Qmult_le_compat_r; [exact N1|lra]. }
  assert (A2 : (m * pow2 (L - 52) <= (x / pow2 (L - 52) + (1 # 2)) * pow2 (L - 52))%Q).
  { apply Qmult_le_compat_r; [exact N2|lra]. }
  assert (D1 : ((x / pow2 (L - 52) - (1 # 2)) * pow2 (L - 52) == x - pow2 (L - 53))%Q).
  { rewrite <- Eh. rewrite <- Ex at 2. ring. }
  assert (D2 : ((x / pow2 (L - 52) + (1 # 2)) * pow2 (L - 52) == x + pow2 (L - 53))%Q).
  { rewrite <- Eh. rewrite <- Ex at 2. ring. }
  rewrite D1 in A1. rewrite D2 in A2. split; lra.
Qed.

Lemma fl_error_nonneg (x B : Q) :
  (0 <= x)%Q -> (x <= B)%Q ->
  (x - B * pow2 (-53) <= fl x /\ fl x <= x + B * pow2 (-53))%Q.
Proof.
  intros H0 HB. unfold fl.
  pose proof (pow2_pos (-53)) as Hu.
  assert (HBu : (x * pow2 (-53) <= B * pow2 (-53))%Q).
  { apply Qmult_le_compat_r; [exact HB|lra]. }
  destruct (Qcompare_spec x 0) as [Hx|Hx|Hx].
  - assert (0 <= B * pow2 (-53))%Q.
    { apply Qmult_le_0_compat; lra. }
    split; lra.
  - lra.
  - destruct (fl_pos_error Hx). split; lra.
Qed.

Lemma Qmult_le_left (k x y : Q) : (0 <= k)%Q -> (x <= y)%Q -> (k * x <= k * y)%Q.
Proof.
  intros Hk Hxy. rewrite (Qmult_comm k x), (Qmult_comm k y).
  apply Qmult_le_compat_r; assumption.
Qed.

Lemma fl_0 : fl 0 = 0%Q.
Proof. reflexivity. Qed.

Lemma fl_unit (t : Q) : (0 <= t)%Q -> (t <= 1)%Q -> (0 <= fl t /\ fl t <= 1)%Q.
Proof.
  intros H0 H1. split.
  - rewrite <- fl_0. apply fl_mono. exact H0.
  - assert (E : (fl 1 == 1)%Q) by (vm_compute; reflexivity).
    rewrite <- E. apply fl_mono. exact H1.
Qed.

Lemma ulp_small : (768 * pow2 (-53) <= 1)%Q.
Proof. unfold Qle. vm_compute. discriminate. Qed.

(** One channel, in floats and exactly. *)
Lemma channel_float (a k t : Q) :
  (0 <= k)%Q -> (k <= a)%Q -> (a <= 256)%Q ->
  (fl k == k)%Q -> (fl a == a)%Q -> (fl (a - k) == a - k)%Q ->
  (0 <= t)%Q -> (t <= 1)%Q ->
  (a - k <= fl (a - fl (k * fl t)) /\ fl (a - fl (k * fl t)) <= a
   /\ a - k * t - 1 <= fl (a - fl (k * fl t))
   /\ fl (a - fl (k * fl t)) <= a - k * t + 1)%Q.
Proof.
  intros Hk0 Hka Ha Ek Ea Eak Ht0 Ht1.
  destruct (fl_unit Ht0 Ht1) as [N0 N1].
  destruct (@fl_error_nonneg t 1 Ht0 Ht1) as [En1 En2].
  set (n := fl t) in *.
  assert (P0 : (0 <= k * n)%Q) by (apply Qmult_le_0_compat; assumption).
  assert (P1 : (k * n <= k)%Q).
  { rewrite <- (Qmult_1_r k) at 2. apply Qmult_le_left; assumption. }
  assert (P256 : (k * n <= 256)%Q) by lra.
  destruct (@fl_error_nonneg (k * n) 256 P0 P256) as [Ep1 Ep2].
  assert (Q0 : (0 <= fl (k * n))%Q) by (rewrite <- fl_0; apply fl_mono; exact P0).
  assert (Q1 : (fl (k * n) <= k)%Q).
  { apply Qle_trans with (fl k); [apply fl_mono; exact P1 | rewrite Ek; apply Qle_refl]. }
  set (p := fl (k * n)) in *.
  assert (V0 : (0 <= a - p)%Q) by lra.
  assert (V256 : (a - p <= 256)%Q) by lra.
  destruct (@fl_error_nonneg (a - p) 256 V0 V256) as [Ev1 Ev2].
  assert (R1 : (a - k <= fl (a - p))%Q).
  { apply Qle_trans with (fl (a - k)); [rewrite Eak; apply Qle_refl | apply fl_mono; lra]. }
  assert (R2 : (fl (a - p) <= a)%Q).
  { apply Qle_trans with (fl a); [apply fl_mono; lra | rewrite Ea; apply Qle_refl]. }
  split; [exact R1|]. split; [exact R2|].
  pose proof ulp_small as Hu. set (u := pow2 (-53)) in *.
  assert (Hu0 : (0 < u)%Q) by apply pow2_pos.
  assert (K1 : (k * (t - n) <= 256 * u)%Q).
  { apply Qle_trans with (k * (1 * u))%Q.
    - apply Qmult_le_left; [exact Hk0|lra].
    - rewrite Qmult_1_l. apply Qmult_le_compat_r; lra. }
  assert (K2 : (k * (n - t) <= 256 * u)%Q).
  { apply Qle_trans with (k * (1 * u))%Q.
    - apply Qmult_le_left; [exact Hk0|lra].
    - rewrite Qmult_1_l. apply Qmult_le_compat_r; lra. }
  assert (D1 : (k * (t - n) == k * t - k * n)%Q) by ring.
  assert (D2 : (k * (n - t) == k * n - k * t)%Q) by ring.
  rewrite D1 in K1. rewrite D2 in K2.
  set (kn := (k * n)%Q) in *. set (kt := (k * t)%Q) in *.
  split; lra.
Qed.

Module UniversityMapProps.

Import UniversityMap.

(** ** Representative point *)

(** C1.  [get_geometry_center] returns the point itself for a Point; for a
    Polygon the point whose coordinates are the arithmetic means of the
    coordinates listed in the outer ring (the first ring), whatever the
    holes; and for a MultiPolygon that same vertex mean of the outer ring
    of the first polygon, whatever the other polygons are. *)
Theorem get_geometry_center_vertex_mean :
  (forall p : position,
      get_geometry_center (mkGeometry "Point" (CPosition p))
      = Return (Some (Point_of_position p)))
  /\ (forall (ring : list position) (holes : list (list position)),
         get_geometry_center (mkGeometry "Polygon" (CRings (ring :: holes)))
         = Return (Some (vertex_mean ring))
         /\ is_mean (map fst ring) (Point_x (vertex_mean ring))
         /\ is_mean (map snd ring) (Point_y (vertex_mean ring)))
  /\ (forall (ring : list position) (holes : list (list position))
             (others : list (list (list position))),
         get_geometry_center
           (mkGeometry "MultiPolygon" (CPolys ((ring :: holes) :: others)))
         = Return (Some (vertex_mean ring))).
Proof.
  split; [|split].
  - intros p. reflexivity.
  - intros ring holes. split; [reflexivity|].
    split; apply np_mean_is_mean.
  - intros ring holes others. reflexivity.
Qed.

(** The vertex mean is not the area centroid: the closing vertex of a
    ring is listed twice, so the unit-4 square averages to (8/5, 8/5),
    not to its centre (2, 2). *)
Example vertex_mean_square_A :
  get_geometry_center (mkGeometry "Polygon" (CRings [square_A]))
  = Return (Some (mkPoint (Fin (8 # 5)) (Fin (8 # 5)))).
Proof. reflexivity. Qed.

(** C3, as stated, fails: on a LineString the function raises nothing;
    it returns [None]. *)
Lemma get_geometry_center_linestring_no_error :
  get_geometry_center footpath = Return None
  /\ ~ fails (get_geometry_center footpath).
Proof.
  split; [reflexivity|].
  intros [e He]. discriminate He.
Qed.

(** C3, amended.  For every geometry whose type is none of Point, Polygon,
    MultiPolygon, [get_geometry_center] raises no error and returns
    [None]; the aggregation then takes the feature as lying in no
    polygon. *)
Theorem get_geometry_center_other_type_None (g : Geometry) :
  gtype g <> "Point"%string ->
  gtype g <> "Polygon"%string ->
  gtype g <> "MultiPolygon"%string ->
  get_geometry_center g = Return None
  /\ forall is_empty contains props polygon_coords,
       university_in_polygon is_empty contains (mkFeature props g) polygon_coords
       = Return false.
Proof.
  intros H1 H2 H3.
  assert (Hc : get_geometry_center g = Return None).
  { unfold get_geometry_center.
    destruct (String.eqb_spec (gtype g) "Point"); [contradiction|].
    destruct (String.eqb_spec (gtype g) "Polygon"); [contradiction|].
    destruct (String.eqb_spec (gtype g) "MultiPolygon"); [contradiction|].
    reflexivity. }
  split; [exact Hc|].
  intros is_empty contains props polygon_coords.
  unfold university_in_polygon; simpl. rewrite Hc. reflexivity.
Qed.

Lemma get_geometry_center_other_type_None_witness :
  get_geometry_center footpath = Return None
  /\ forall is_empty contains props polygon_coords,
       university_in_polygon is_empty contains (mkFeature props footpath)
         polygon_coords
       = Return false.
Proof.
  apply (get_geometry_center_other_type_None footpath); simpl; discriminate.
Defined.

(** ** Aggregation per region *)

Section AggregationProps.

Variable Point_is_empty : Point -> bool.
Variable Polygon_contains : list position -> Point -> result bool.

Local Notation inside polygon_coords :=
  (fun u => returns_true
     (university_in_polygon Point_is_empty Polygon_contains u polygon_coords)).
Local Notation check := (check_universities Point_is_empty Polygon_contains).
Local Notation entry := (entry_of_region Point_is_empty Polygon_contains).
Local Notation loop := (count_regions_loop Point_is_empty Polygon_contains).

(** What the inner loop leaves in its accumulators when it ends. *)
Lemma check_universities_filter (polygon_coords : list position) :
  forall (targets : list Feature) (count0 : Z) (acc : list Feature)
         (c : Z) (members : list Feature),
    check polygon_coords targets count0 acc = Return (c, members) ->
    members = acc ++ filter (inside polygon_coords) targets
    /\ c = (count0 + Z.of_nat (List.length (filter (inside polygon_coords) targets)))%Z.
Proof.
  induction targets as [|u targets IH]; intros count0 acc c members; simpl.
  - intros H. injection H as <- <-. rewrite app_nil_r. split; [reflexivity|lia].
  - intros H. apply bind_Return_inv in H. destruct H as [b [Hb H]].
    rewrite Hb. destruct b; simpl.
    + apply IH in H. destruct H as [-> ->].
      rewrite <- app_assoc. simpl. split; [reflexivity|lia].
    + apply IH in H. exact H.
Qed.

Lemma count_regions_loop_entries (universities : list Feature) :
  forall (regions : list Feature) (d0 d : list (string * RegionCount)),
    loop regions universities d0 = Return d ->
    forall e, In e d -> In e d0 \/ entry regions universities e.
Proof.
  induction regions as [|r regions IH]; intros d0 d; simpl.
  - intros H e He. injection H as <-. left; exact He.
  - intros H e He.
    apply bind_Return_inv in H. destruct H as [name [Hname H]].
    apply bind_Return_inv in H. destruct H as [pc [Hpc H]].
    assert (Hweaken : entry regions universities e ->
                      entry (r :: regions) universities e).
    { intros [H1 H2]. split; [right; exact H1 | exact H2]. }
    destruct pc as [pc|].
    + apply bind_Return_inv in H. destruct H as [[c members] [Hchk H]].
      destruct (IH _ _ H e He) as [Hin|Hent]; [|right; auto].
      apply In_dict_set in Hin. destruct Hin as [->|Hin]; [|left; exact Hin].
      right. apply check_universities_filter in Hchk. simpl in Hchk.
      destruct Hchk as [-> ->]. simpl.
      split; [left; reflexivity|].
      split; [exact Hname|].
      exists pc. split; [exact Hpc|]. split; reflexivity.
    + destruct (IH _ _ H e He) as [Hin|Hent]; [left; exact Hin | right; auto].
Qed.

Lemma count_universities_in_regions_entries
  (regions universities : list Feature) (d : list (string * RegionCount)) :
  count_universities_in_regions Point_is_empty Polygon_contains regions universities
  = Return d ->
  forall e, In e d -> entry regions universities e.
Proof.
  intros H e He.
  destruct (count_regions_loop_entries _ _ _ H e He) as [[]|Hent].
  exact Hent.
Qed.


(** C10.  In every entry of the result the count is the number of
    members and is at most the number of targets; the members are the
    targets with some left out, in the order of the targets; a target
    listed once among the targets is listed at most once among the
    members. *)
Theorem count_universities_in_regions_members
  (regions universities : list Feature) (d : list (string * RegionCount)) :
  count_universities_in_regions Point_is_empty Polygon_contains regions universities
  = Return d ->
  forall name e, In (name, e) d ->
    count e = Z.of_nat (List.length (UniversityMap.universities e))
    /\ (0 <= count e <= Z.of_nat (List.length universities))%Z
    /\ Subsequence (UniversityMap.universities e) universities
    /\ (NoDup universities -> NoDup (UniversityMap.universities e)).
Proof.
  intros H name e He.
  destruct (count_universities_in_regions_entries _ _ H _ He)
    as [_ [_ [pc [_ [Hmem Hcount]]]]].
  simpl in *. rewrite Hmem in *.
  split; [exact Hcount|].
  split.
  - rewrite Hcount.
    pose proof (filter_length_le (inside pc) universities). lia.
  - split.
    + apply Subsequence_filter.
    + intros Hnd. apply NoDup_filter. exact Hnd.
Qed.

End AggregationProps.




Lemma count_universities_in_regions_members_witness :
  count (mkRegionCount 2 [campus; annex] (polygon_region "A" square_A))
  = Z.of_nat (List.length [campus; annex])
  /\ (0 <= count (mkRegionCount 2 [campus; annex] (polygon_region "A" square_A))
      <= Z.of_nat (List.length [campus; annex]))%Z
  /\ Subsequence [campus; annex] [campus; annex]
  /\ (NoDup [campus; annex] -> NoDup [campus; annex]).
Proof.
  refine (count_universities_in_regions_members
            nan_is_empty even_odd_contains
            overlapping_regions [campus; annex] (d := overlap_counts)
            _ "A"%string _ _).
  - vm_compute. reflexivity.
  - simpl. left. reflexivity.
Defined.

(** ** Colour scale *)

Lemma py_int_truncates (v : Q) : truncates_to v (py_int v).
Proof.
  destruct v as [n d]. unfold truncates_to, py_int, Qle, Qlt. simpl.
  pose proof (Z.quot_rem' n (Zpos d)) as Hqr.
  split; intros Hs.
  - pose proof (Z.rem_bound_pos_pos n (Zpos d) ltac:(lia) ltac:(lia)). nia.
  - pose proof (Z.rem_bound_pos_neg n (Zpos d) ltac:(lia) ltac:(lia)). nia.
Qed.

Lemma truncates_to_Qeq (v w : Q) (c : Z) :
  (v == w)%Q -> truncates_to v c -> truncates_to w c.
Proof.
  unfold truncates_to. intros Heq. rewrite Heq. exact (fun H => H).
Qed.

(** A truncation is the only integer in its unit interval. *)
Lemma truncates_to_between (v : Q) (c lo hi : Z) :
  (0 <= lo)%Z -> (inject_Z lo <= v)%Q -> (v <= inject_Z hi)%Q ->
  truncates_to v c -> (lo <= c <= hi)%Z.
Proof.
  intros Hlo Hl Hh [Hpos _].
  assert (H0 : (0 <= v)%Q).
  { apply Qle_trans with (inject_Z lo); [|exact Hl].
    change 0%Q with (inject_Z 0). rewrite <- Zle_Qle. exact Hlo. }
  destruct (Hpos H0) as [Hc1 Hc2].
  split.
  - assert (H : (inject_Z lo < inject_Z (c + 1))%Q).
    { rewrite inject_Z_plus. apply Qle_lt_trans with v; assumption. }
    rewrite <- Zlt_Qlt in H. lia.
  - assert (H : (inject_Z c <= inject_Z hi)%Q).
    { apply Qle_trans with v; assumption. }
    rewrite <- Zle_Qle in H. exact H.
Qed.

Lemma normalized_unit (count mn mx : Z) :
  (mn <= count <= mx)%Z -> (mn < mx)%Z ->
  (0 <= inject_Z (count - mn) / inject_Z (mx - mn)
   /\ inject_Z (count - mn) / inject_Z (mx - mn) <= 1)%Q.
Proof.
  intros Hc Hlt.
  assert (Hd : (0 < inject_Z (mx - mn))%Q).
  { change 0%Q with (inject_Z 0). rewrite <- Zlt_Qlt. lia. }
  split.
  - apply Qle_shift_div_l; [exact Hd|].
    rewrite Qmult_0_l. change 0%Q with (inject_Z 0). rewrite <- Zle_Qle. lia.
  - apply Qle_shift_div_r; [exact Hd|].
    rewrite Qmult_1_l. rewrite <- Zle_Qle. lia.
Qed.

Lemma hex_digit_value_digit (k : Z) :
  (0 <= k < 16)%Z -> hex_digit_value (hex_digit k) = Some k.
Proof.
  intros Hk.
  assert (Hall : forallb
            (fun n => match hex_digit_value (hex_digit (Z.of_nat n)) with
                      | Some w => Z.eqb w (Z.of_nat n)
                      | None => false
                      end)
            (seq 0 16) = true) by (vm_compute; reflexivity).
  rewrite forallb_forall in Hall.
  specialize (Hall (Z.to_nat k)).
  rewrite Z2Nat.id in Hall by lia.
  assert (Hin : In (Z.to_nat k) (seq 0 16)) by (apply in_seq; lia).
  apply Hall in Hin.
  destruct (hex_digit_value (hex_digit k)) as [w|]; [|discriminate].
  apply Z.eqb_eq in Hin. subst w. reflexivity.
Qed.

Lemma hex_value_from_digit (v k : Z) (s : string) :
  (0 <= k < 16)%Z ->
  hex_value_from v (String (hex_digit k) s) = hex_value_from (16 * v + k)%Z s.
Proof.
  intros Hk.
  change (hex_value_from v (String (hex_digit k) s))
    with (match hex_digit_value (hex_digit k) with
          | Some d => hex_value_from (16 * v + d)%Z s
          | None => None
          end).
  rewrite hex_digit_value_digit by exact Hk. reflexivity.
Qed.

(** With enough fuel the digits written in front of [acc] spell [n]. *)
Lemma hex_digits_value :
  forall (fuel : nat) (n : Z),
    (0 < fuel)%nat -> (0 <= n < 16 ^ Z.of_nat fuel)%Z ->
    exists k : Z,
      (0 <= k)%Z
      /\ forall (acc : string) (v : Z),
           hex_value_from v (hex_digits fuel n acc)
           = hex_value_from (v * 16 ^ k + n)%Z acc.
Proof.
  induction fuel as [|fuel IH]; intros n Hfuel Hn; [lia|].
  assert (Hmod : (0 <= n mod 16 < 16)%Z) by (apply Z.mod_pos_bound; lia).
  pose proof (Z.div_mod n 16 ltac:(lia)) as Hdm.
  simpl hex_digits.
  destruct (Z.eqb_spec (n / 16) 0) as [Hq|Hq].
  - exists 1%Z. split; [lia|]. intros acc v.
    rewrite hex_value_from_digit by exact Hmod.
    f_equal. rewrite Z.pow_1_r. lia.
  - assert (Hqpos : (0 < n / 16)%Z).
    { pose proof (Z.div_pos n 16 ltac:(lia) ltac:(lia)). lia. }
    assert (Hfuel' : (0 < fuel)%nat).
    { destruct fuel; [|lia]. simpl in Hn. lia. }
    assert (Hqlt : (n / 16 < 16 ^ Z.of_nat fuel)%Z).
    { apply Z.div_lt_upper_bound; [lia|].
      rewrite Nat2Z.inj_succ, Z.pow_succ_r in Hn by lia. lia. }
    destruct (IH (n / 16)%Z Hfuel' ltac:(lia)) as [k [Hk Hval]].
    exists (k + 1)%Z. split; [lia|]. intros acc v.
    rewrite Hval, hex_value_from_digit by exact Hmod.
    f_equal. rewrite Z.pow_add_r, Z.pow_1_r by lia. lia.
Qed.

Lemma format_x_value (n : Z) :
  (0 <= n)%Z -> hex_value (format_x n) = Some n.
Proof.
  intros Hn. unfold hex_value, format_x.
  destruct (hex_digits_value (fuel := S (Z.to_nat (Z.log2 n))) (n := n))
    as [k [_ Hval]].
  - lia.
  - split; [exact Hn|].
    destruct (Z.eq_dec n 0) as [->|Hnz]; [simpl; lia|].
    pose proof (Z.log2_spec n ltac:(lia)) as [_ Hlog].
    pose proof (Z.log2_nonneg n) as Hl0.
    rewrite Nat2Z.inj_succ, Z2Nat.id by exact Hl0.
    apply Z.lt_le_trans with (2 ^ Z.succ (Z.log2 n))%Z; [exact Hlog|].
    apply Z.pow_le_mono_l. lia.
  - rewrite Hval. simpl. reflexivity.
Qed.

(** The digits written by ['02x'] spell every non-negative channel. *)
Lemma format_02x_value (n : Z) :
  (0 <= n)%Z -> hex_value (format_02x n) = Some n.
Proof.
  intros Hn. unfold format_02x.
  destruct (Z.ltb_spec n 0) as [Hneg|_]; [lia|].
  destruct (String.length (format_x n) <? 2)%nat.
  - unfold hex_value. simpl. apply format_x_value. exact Hn.
  - apply format_x_value. exact Hn.
Qed.

(** Two lower-case hexadecimal digits spell each value of a byte. *)
Lemma format_02x_byte (c : Z) :
  (0 <= c <= 255)%Z ->
  String.length (format_02x c) = 2%nat /\ hex_value (format_02x c) = Some c.
Proof.
  intros Hc.
  assert (Hall : forallb
            (fun n => let k := Z.of_nat n in
                      Nat.eqb (String.length (format_02x k)) 2
                      && match hex_value (format_02x k) with
                         | Some w => Z.eqb w k
                         | None => false
                         end)
            (seq 0 256) = true) by (vm_compute; reflexivity).
  rewrite forallb_forall in Hall.
  specialize (Hall (Z.to_nat c)).
  rewrite Z2Nat.id in Hall by lia.
  assert (Hin : In (Z.to_nat c) (seq 0 256)) by (apply in_seq; lia).
  apply Hall in Hin. simpl in Hin.
  apply andb_true_iff in Hin. destruct Hin as [Hlen Hval].
  apply Nat.eqb_eq in Hlen.
  destruct (hex_value (format_02x c)) as [w|]; [|discriminate].
  apply Z.eqb_eq in Hval. subst w. split; [exact Hlen|reflexivity].
Qed.

(** Two values at most one apart truncate to integers at most one apart. *)
Lemma truncates_to_near (v w : Q) (c d : Z) :
  (0 <= v)%Q -> (0 <= w)%Q -> (v - 1 <= w)%Q -> (w <= v + 1)%Q ->
  truncates_to v c -> truncates_to w d -> (c - 1 <= d <= c + 1)%Z.
Proof.
  intros Hv Hw H1 H2 [Hc _] [Hd _].
  destruct (Hc Hv) as [Hc1 Hc2]. destruct (Hd Hw) as [Hd1 Hd2].
  assert (A : (inject_Z d < inject_Z (c + 2))%Q).
  { rewrite inject_Z_plus. unfold inject_Z at 3. lra. }
  assert (B : (inject_Z c < inject_Z (d + 2))%Q).
  { rewrite inject_Z_plus. unfold inject_Z at 3. lra. }
  rewrite <- Zlt_Qlt in A, B. lia.
Qed.

(** One channel, from [a] down to [a - k], at a parameter of the unit
    interval: the integer written lies between the endpoints and is at
    most one away from the truncated exact interpolation. *)
Lemma channel_truncated (a k : Q) (lo hi : Z) (t : Q) :
  (0 <= k)%Q -> (k <= a)%Q -> (a <= 256)%Q ->
  (fl k == k)%Q -> (fl a == a)%Q -> (fl (a - k) == a - k)%Q ->
  (0 <= lo)%Z -> (inject_Z lo == a - k)%Q -> (inject_Z hi == a)%Q ->
  (0 <= t)%Q -> (t <= 1)%Q ->
  (lo <= py_int (fl (a - fl (k * fl t))) <= hi)%Z
  /\ forall e : Z,
       truncates_to (a - k * t) e ->
       (e - 1 <= py_int (fl (a - fl (k * fl t))) <= e + 1)%Z.
Proof.
  intros Hk Hka Ha Ek Ea Eak Hlo Elo Ehi Ht0 Ht1.
  destruct (channel_float Hk Hka Ha Ek Ea Eak Ht0 Ht1) as [B1 [B2 [B3 B4]]].
  pose proof (py_int_truncates (fl (a - fl (k * fl t)))) as Htr.
  assert (Hkt : (k * t <= k)%Q).
  { rewrite <- (Qmult_1_r k) at 2. apply Qmult_le_left; assumption. }
  assert (Hkt0 : (0 <= k * t)%Q) by (apply Qmult_le_0_compat; assumption).
  assert (Hlo0 : (0 <= inject_Z lo)%Q).
  { change 0%Q with (inject_Z 0). rewrite <- Zle_Qle. exact Hlo. }
  split.
  - apply truncates_to_between with (fl (a - fl (k * fl t)));
      [exact Hlo | rewrite Elo; exact B1 | rewrite Ehi; exact B2 | exact Htr].
  - intros e He.
    apply truncates_to_near with (a - k * t)%Q (fl (a - fl (k * fl t)));
      [lra | lra | exact B3 | exact B4 | exact He | exact Htr].
Qed.

(** The three channels of [get_color_channels] for a count within the
    range. *)
Lemma get_color_channels_float (count mn mx : Z) :
  (mn < mx)%Z -> (mn <= count <= mx)%Z ->
  let t := (inject_Z (count - mn) / inject_Z (mx - mn))%Q in
  exists red green blue,
    get_color_channels count mn mx = (red, green, blue)
    /\ (18 <= red <= 230)%Z /\ (10 <= green <= 243)%Z /\ (143 <= blue <= 255)%Z
    /\ (forall e, truncates_to (lerp 230 18 t) e -> (e - 1 <= red <= e + 1)%Z)
    /\ (forall e, truncates_to (lerp 243 10 t) e -> (e - 1 <= green <= e + 1)%Z)
    /\ (forall e, truncates_to (lerp 255 143 t) e -> (e - 1 <= blue <= e + 1)%Z).
Proof.
  intros Hlt Hrange t. unfold get_color_channels. fold t.
  destruct (normalized_unit Hrange Hlt) as [Ht0 Ht1]. fold t in Ht0, Ht1.
  assert (Hr := @channel_truncated 230 212 18 230 t).
  assert (Hg := @channel_truncated 243 233 10 243 t).
  assert (Hb := @channel_truncated 255 112 143 255 t).
  destruct Hr as [Hr1 Hr2];
    [lra | lra | lra | vm_compute; reflexivity | vm_compute; reflexivity
     | vm_compute; reflexivity | lia | reflexivity | reflexivity
     | exact Ht0 | exact Ht1 |].
  destruct Hg as [Hg1 Hg2];
    [lra | lra | lra | vm_compute; reflexivity | vm_compute; reflexivity
     | vm_compute; reflexivity | lia | reflexivity | reflexivity
     | exact Ht0 | exact Ht1 |].
  destruct Hb as [Hb1 Hb2];
    [lra | lra | lra | vm_compute; reflexivity | vm_compute; reflexivity
     | vm_compute; reflexivity | lia | reflexivity | reflexivity
     | exact Ht0 | exact Ht1 |].
  do 3 eexists. split; [reflexivity|].
  split; [exact Hr1|]. split; [exact Hg1|]. split; [exact Hb1|].
  split; [|split]; intros e He.
  - apply Hr2. apply truncates_to_Qeq with (lerp 230 18 t);
      [unfold lerp; simpl; ring | exact He].
  - apply Hg2. apply truncates_to_Qeq with (lerp 243 10 t);
      [unfold lerp; simpl; ring | exact He].
  - apply Hb2. apply truncates_to_Qeq with (lerp 255 143 t);
      [unfold lerp; simpl; ring | exact He].
Qed.

(** C9 as stated fails.  At count 107 of the range 0..212 the linear
    interpolation of the red channel is exactly 123, and so is its
    truncation; the function, whose quotient 107/212 and product
    212 * normalized are rounded floats, computes 122.99999999999999 and
    writes 122 ([7a]). *)
Lemma get_color_107_of_212_below_interpolation :
  get_color 107 0 212 = "#7a7dc6"%string
  /\ get_color_channels 107 0 212 = (122, 125, 198)%Z
  /\ truncates_to (lerp 230 18 (inject_Z (107 - 0) / inject_Z (212 - 0))) 123
  /\ ~ truncates_to (lerp 230 18 (inject_Z (107 - 0) / inject_Z (212 - 0))) 122.
Proof.
  assert (E : (lerp 230 18 (inject_Z (107 - 0) / inject_Z (212 - 0)) == 123)%Q)
    by (vm_compute; reflexivity).
  split; [vm_compute; reflexivity|].
  split; [vm_compute; reflexivity|].
  split.
  - apply truncates_to_Qeq with 123%Q; [symmetry; exact E|].
    unfold truncates_to, inject_Z. split; intros _; split; lra.
  - intros H. apply truncates_to_Qeq with (w := 123%Q) in H; [|exact E].
    destruct H as [H _]. unfold inject_Z in H.
    destruct H as [_ H]; lra.
Qed.

(** C9, amended.  With [min_count = max_count], [get_color] is the one
    constant colour for every count.  With [min_count < max_count], each
    of the three channels written into the colour is the interpolation
    from the light endpoint (230, 243, 255) towards the dark endpoint
    (18, 10, 143) as the floats compute it (the quotient
    [(count - min_count) / (max_count - min_count)], the product and the
    difference each rounded to the nearest double), with the fractional
    part dropped.  For a count within the range each channel lies between
    the two endpoints, is spelled by two hexadecimal digits, and differs
    by at most one from the truncated exact interpolation. *)
Theorem get_color_float_interpolation :
  (forall count m : Z, get_color count m m = "#E6F3FF"%string)
  /\ (forall count min_count max_count : Z,
         (min_count < max_count)%Z ->
         exists red green blue : Z,
           get_color count min_count max_count
           = ("#" ++ format_02x red ++ format_02x green ++ format_02x blue)%string
           /\ (let normalized :=
                 fl (inject_Z (count - min_count) / inject_Z (max_count - min_count)) in
               truncates_to (fl (230 - fl (212 * normalized))) red
               /\ truncates_to (fl (243 - fl (233 * normalized))) green
               /\ truncates_to (fl (255 - fl (112 * normalized))) blue)
           /\ ((min_count <= count <= max_count)%Z ->
               (18 <= red <= 230)%Z /\ (10 <= green <= 243)%Z
               /\ (143 <= blue <= 255)%Z
               /\ hex_value (format_02x red) = Some red
               /\ hex_value (format_02x green) = Some green
               /\ hex_value (format_02x blue) = Some blue
               /\ (let t :=
                     (inject_Z (count - min_count) / inject_Z (max_count - min_count))%Q in
                   forall r g b : Z,
                     truncates_to (lerp 230 18 t) r ->
                     truncates_to (lerp 243 10 t) g ->
                     truncates_to (lerp 255 143 t) b ->
                     (r - 1 <= red <= r + 1)%Z /\ (g - 1 <= green <= g + 1)%Z
                     /\ (b - 1 <= blue <= b + 1)%Z))).
Proof.
  split.
  - intros count m. unfold get_color. rewrite Z.eqb_refl. reflexivity.
  - intros count mn mx Hlt.
    destruct (get_color_channels count mn mx) as [[red green] blue] eqn:Hch.
    exists red, green, blue.
    split; [|split].
    + unfold get_color.
      destruct (Z.eqb_spec mx mn) as [Heq|_]; [lia|].
      rewrite Hch. reflexivity.
    + unfold get_color_channels in Hch. injection Hch as <- <- <-.
      cbv zeta. split; [|split]; apply py_int_truncates.
    + intros Hrange.
      destruct (get_color_channels_float Hlt Hrange)
        as [r' [g' [b' [Hch' [Hr [Hg [Hb [Nr [Ng Nb]]]]]]]]].
      rewrite Hch in Hch'. injection Hch' as <- <- <-.
      repeat split; try lia; try (apply format_02x_byte; lia).
      * apply Nr. assumption.
      * apply Nr. assumption.
      * apply Ng. assumption.
      * apply Ng. assumption.
      * apply Nb. assumption.
      * apply Nb. assumption.
Qed.

(** At count 1 of the range 0..3 the blue channel is 217.66..., written
    as 217 ([d9]) and not as the nearest 218; here the floats and the
    exact interpolation truncate to the same three channels. *)
Lemma get_color_float_interpolation_witness :
  get_color 1 0 3 = "#9fa5d9"%string
  /\ exists red green blue : Z,
       get_color 1 0 3
       = ("#" ++ format_02x red ++ format_02x green ++ format_02x blue)%string
       /\ (let normalized := fl (inject_Z (1 - 0) / inject_Z (3 - 0)) in
           truncates_to (fl (230 - fl (212 * normalized))) red
           /\ truncates_to (fl (243 - fl (233 * normalized))) green
           /\ truncates_to (fl (255 - fl (112 * normalized))) blue)
       /\ ((0 <= 1 <= 3)%Z ->
           (18 <= red <= 230)%Z /\ (10 <= green <= 243)%Z
           /\ (143 <= blue <= 255)%Z
           /\ hex_value (format_02x red) = Some red
           /\ hex_value (format_02x green) = Some green
           /\ hex_value (format_02x blue) = Some blue
           /\ (let t := (inject_Z (1 - 0) / inject_Z (3 - 0))%Q in
               forall r g b : Z,
                 truncates_to (lerp 230 18 t) r ->
                 truncates_to (lerp 243 10 t) g ->
                 truncates_to (lerp 255 143 t) b ->
                 (r - 1 <= red <= r + 1)%Z /\ (g - 1 <= green <= g + 1)%Z
                 /\ (b - 1 <= blue <= b + 1)%Z)).
Proof.
  split; [vm_compute; reflexivity|].
  apply (proj2 get_color_float_interpolation 1%Z 0%Z 3%Z). lia.
Defined.

(** ** Feature extraction *)

Lemma property_is_get (feature : Feature) (key v : string) :
  property_is feature key v = true <-> dict_get (properties feature) key = Some v.
Proof.
  unfold property_is. destruct (dict_get (properties feature) key) as [w|].
  - rewrite String.eqb_eq. split; [intros ->; reflexivity | intros H; injection H; auto].
  - split; discriminate.
Qed.

(** X1.  [extract_universities] keeps, in the order of the input, exactly
    the features tagged [amenity = university] or [building = university];
    [extract_administrative_regions] keeps exactly those tagged both
    [boundary = administrative] and [admin_level = "9"].  A feature that
    lacks the keys is left out. *)
Theorem extract_membership (features : list Feature) :
  (forall f, In f (extract_universities features)
             <-> In f features
                 /\ (dict_get (properties f) "amenity" = Some "university"%string
                     \/ dict_get (properties f) "building" = Some "university"%string))
  /\ (forall f, In f (extract_administrative_regions features)
                <-> In f features
                    /\ dict_get (properties f) "boundary" = Some "administrative"%string
                    /\ dict_get (properties f) "admin_level" = Some "9"%string)
  /\ Subsequence (extract_universities features) features
  /\ Subsequence (extract_administrative_regions features) features.
Proof.
  split; [|split; [|split]].
  - intros f. unfold extract_universities.
    rewrite filter_In, orb_true_iff, !property_is_get. reflexivity.
  - intros f. unfold extract_administrative_regions.
    rewrite filter_In, andb_true_iff, !property_is_get. reflexivity.
  - apply Subsequence_filter.
  - apply Subsequence_filter.
Qed.

(** ** Errors of the representative point *)

(** X2.  [get_geometry_center] never raises on a Point.  On a Polygon it
    raises exactly when the polygon has no ring, and on a MultiPolygon
    exactly when there is no polygon or the first polygon has no ring;
    the error is an [IndexError].  A ring without vertices raises
    nothing and gives the point (nan, nan). *)
Theorem get_geometry_center_errors :
  (forall p : position,
      ~ fails (get_geometry_center (mkGeometry "Point" (CPosition p))))
  /\ (forall rings : list (list position),
         fails (get_geometry_center (mkGeometry "Polygon" (CRings rings)))
         <-> rings = [])
  /\ (forall polys : list (list (list position)),
         fails (get_geometry_center (mkGeometry "MultiPolygon" (CPolys polys)))
         <-> polys = [] \/ exists others, polys = [] :: others)
  /\ get_geometry_center (mkGeometry "Polygon" (CRings [])) = Raise IndexError
  /\ get_geometry_center (mkGeometry "MultiPolygon" (CPolys [])) = Raise IndexError
  /\ (forall others : list (list (list position)),
         get_geometry_center (mkGeometry "MultiPolygon" (CPolys ([] :: others)))
         = Raise IndexError)
  /\ (forall holes : list (list position),
         get_geometry_center (mkGeometry "Polygon" (CRings ([] :: holes)))
         = Return (Some (mkPoint NaN NaN))).
Proof.
  split; [|split; [|split; [|split; [|split; [|split]]]]]; try reflexivity.
  - intros p [e He]. discriminate He.
  - intros rings. split.
    + intros [e He]. destruct rings as [|ring holes]; [reflexivity|discriminate He].
    + intros ->. exists IndexError. reflexivity.
  - intros polys. split.
    + intros [e He]. destruct polys as [|[|ring holes] others].
      * left. reflexivity.
      * right. exists others. reflexivity.
      * discriminate He.
    + intros [->|[others ->]]; exists IndexError; reflexivity.
Qed.

(** ** Ring coordinates of a region *)

Lemma extend_outer_rings_concat :
  forall (polys : list (list (list position))) (all_coords : list position),
    Forall (fun poly => poly <> []) polys ->
    extend_outer_rings polys all_coords
    = Return (all_coords ++ List.concat (map (hd []) polys)).
Proof.
  induction polys as [|poly polys IH]; intros all_coords Hall; simpl.
  - rewrite app_nil_r. reflexivity.
  - inversion Hall as [|? ? Hpoly Hrest]; subst.
    destruct poly as [|ring holes]; [contradiction|]. simpl.
    rewrite IH by exact Hrest. rewrite app_assoc. reflexivity.
Qed.

Lemma extend_outer_rings_raises :
  forall (polys : list (list (list position))) (all_coords : list position),
    Exists (fun poly => poly = []) polys ->
    extend_outer_rings polys all_coords = Raise IndexError.
Proof.
  induction polys as [|poly polys IH]; intros all_coords Hex.
  - inversion Hex.
  - simpl. destruct poly as [|ring holes]; [reflexivity|]. simpl.
    apply IH. inversion Hex as [? ? Hp|? ? Hr]; subst; [discriminate|exact Hr].
Qed.

(** X4.  For a MultiPolygon region the coordinates tested for containment
    are the outer rings of all its polygons joined end to end in polygon
    order; a polygon without a ring raises [IndexError]; no polygon at all
    gives the empty list; and a MultiPolygon of one polygon is tested as
    that Polygon is. *)
Theorem region_polygon_coords_multipolygon (polys : list (list (list position))) :
  (Forall (fun poly => poly <> []) polys ->
   region_polygon_coords (mkGeometry "MultiPolygon" (CPolys polys))
   = Return (Some (List.concat (map (hd []) polys))))
  /\ (Exists (fun poly => poly = []) polys ->
      region_polygon_coords (mkGeometry "MultiPolygon" (CPolys polys))
      = Raise IndexError)
  /\ (forall poly : list (list position),
         region_polygon_coords (mkGeometry "MultiPolygon" (CPolys [poly]))
         = region_polygon_coords (mkGeometry "Polygon" (CRings poly))).
Proof.
  split; [|split].
  - intros Hall. unfold region_polygon_coords. simpl.
    rewrite extend_outer_rings_concat by exact Hall. reflexivity.
  - intros Hex. unfold region_polygon_coords. simpl.
    rewrite extend_outer_rings_raises by exact Hex. reflexivity.
  - intros poly. destruct poly as [|ring holes]; reflexivity.
Qed.

Lemma region_polygon_coords_multipolygon_witness :
  region_polygon_coords (mkGeometry "MultiPolygon" (CPolys [[square_A]; [square_B]]))
  = Return (Some (List.concat (map (hd []) [[square_A]; [square_B]]))).
Proof.
  apply (proj1 (region_polygon_coords_multipolygon [[square_A]; [square_B]])).
  repeat constructor; discriminate.
Defined.

(** ** Dict of regions *)

Section AggregationMore.

Variable Point_is_empty : Point -> bool.
Variable Polygon_contains : list position -> Point -> result bool.

Local Notation inside polygon_coords :=
  (fun u => returns_true
     (university_in_polygon Point_is_empty Polygon_contains u polygon_coords)).
Local Notation check := (check_universities Point_is_empty Polygon_contains).
Local Notation loop := (count_regions_loop Point_is_empty Polygon_contains).
Local Notation run :=
  (count_universities_in_regions Point_is_empty Polygon_contains).

(** The loop over a list of regions in two parts. *)
Lemma count_regions_loop_app (universities : list Feature) :
  forall (pre post : list Feature) (d0 : list (string * RegionCount)),
    loop (pre ++ post) universities d0
    = (d <- loop pre universities d0 ;; loop post universities d).
Proof.
  induction pre as [|r pre IH]; intros post d0; [reflexivity|].
  simpl.
  destruct (dict_item (properties r) "name") as [name|e]; [|reflexivity]. simpl.
  destruct (region_polygon_coords (geometry r)) as [[pc|]|e]; simpl;
    [|apply IH|reflexivity].
  destruct (check pc universities 0%Z []) as [res|e]; [|reflexivity]. simpl.
  apply IH.
Qed.

(** X5.  A region that has a name and whose geometry is neither a
    Polygon nor a MultiPolygon is passed over: the result is the one
    obtained without it. *)
Theorem count_universities_in_regions_skips_other_geometry
  (pre post universities : list Feature) (r : Feature) (name : string) :
  dict_get (properties r) "name" = Some name ->
  gtype (geometry r) <> "Polygon"%string ->
  gtype (geometry r) <> "MultiPolygon"%string ->
  run (pre ++ r :: post) universities = run (pre ++ post) universities.
Proof.
  intros Hname Hp Hm. unfold count_universities_in_regions.
  rewrite !count_regions_loop_app.
  destruct (loop pre universities []) as [d|e]; [|reflexivity]. simpl.
  unfold dict_item. rewrite Hname. simpl.
  unfold region_polygon_coords.
  destruct (String.eqb_spec (gtype (geometry r)) "Polygon"); [contradiction|].
  destruct (String.eqb_spec (gtype (geometry r)) "MultiPolygon"); [contradiction|].
  reflexivity.
Qed.

Lemma count_regions_loop_missing_name (universities : list Feature) (r : Feature) :
  dict_get (properties r) "name" = None ->
  forall (regions : list Feature) (d0 : list (string * RegionCount)),
    In r regions -> fails (loop regions universities d0).
Proof.
  intros Hname. induction regions as [|h regions IH]; intros d0 Hin; [destruct Hin|].
  simpl. destruct Hin as [->|Hin].
  - unfold dict_item. rewrite Hname. exists KeyError. reflexivity.
  - destruct (dict_item (properties h) "name") as [name|e]; [|exists e; reflexivity].
    simpl.
    destruct (region_polygon_coords (geometry h)) as [[pc|]|e]; simpl;
      [|apply IH; exact Hin|exists e; reflexivity].
    destruct (check pc universities 0%Z []) as [res|e]; [|exists e; reflexivity].
    simpl. apply IH. exact Hin.
Qed.

(** X6.  When some region has no [name] property the function raises
    and returns no counts at all, whatever the geometry of that region
    (the name is read before the geometry type is looked at); when that
    region comes first the error is a [KeyError]. *)
Theorem count_universities_in_regions_missing_name
  (regions universities : list Feature) (r : Feature) :
  In r regions ->
  dict_get (properties r) "name" = None ->
  fails (run regions universities)
  /\ forall rest, run (r :: rest) universities = Raise KeyError.
Proof.
  intros Hin Hname. split.
  - apply count_regions_loop_missing_name with r; assumption.
  - intros rest. unfold count_universities_in_regions. simpl.
    unfold dict_item. rewrite Hname. reflexivity.
Qed.

Lemma count_regions_loop_keys (universities : list Feature) :
  forall (regions : list Feature) (d0 d : list (string * RegionCount)),
    loop regions universities d0 = Return d ->
    (NoDup (map fst d0) -> NoDup (map fst d))
    /\ (List.length d <= List.length d0 + List.length regions)%nat.
Proof.
  induction regions as [|r regions IH]; intros d0 d; simpl.
  - intros H. injection H as <-. split; [auto|lia].
  - intros H.
    apply bind_Return_inv in H. destruct H as [name [_ H]].
    apply bind_Return_inv in H. destruct H as [pc [_ H]].
    destruct pc as [pc|].
    + apply bind_Return_inv in H. destruct H as [res [_ H]].
      apply IH in H. destruct H as [Hnd Hlen]. split.
      * intros Hd0. apply Hnd. apply dict_set_NoDup. exact Hd0.
      * pose proof (dict_set_length d0 name
                      (mkRegionCount (fst res) (snd res) r)). lia.
    + apply IH in H. destruct H as [Hnd Hlen]. split; [exact Hnd|lia].
Qed.

(** X7.  The result holds at most one entry per region name and no more
    entries than there are regions. *)
Theorem count_universities_in_regions_keys
  (regions universities : list Feature) (d : list (string * RegionCount)) :
  run regions universities = Return d ->
  NoDup (map fst d) /\ (List.length d <= List.length regions)%nat.
Proof.
  intros H. apply count_regions_loop_keys in H. destruct H as [Hnd Hlen].
  split; [apply Hnd; constructor | exact Hlen].
Qed.

Lemma count_regions_loop_other_names (universities : list Feature) (name : string) :
  forall (regions : list Feature) (d0 d : list (string * RegionCount)),
    (forall r, In r regions -> dict_get (properties r) "name" <> Some name) ->
    loop regions universities d0 = Return d ->
    dict_get d name = dict_get d0 name.
Proof.
  induction regions as [|r regions IH]; intros d0 d Hother; simpl.
  - intros H. injection H as <-. reflexivity.
  - intros H.
    assert (Hrest : forall r', In r' regions ->
                               dict_get (properties r') "name" <> Some name)
      by (intros r' Hr'; apply Hother; right; exact Hr').
    apply bind_Return_inv in H. destruct H as [n [Hn H]].
    apply bind_Return_inv in H. destruct H as [pc [_ H]].
    assert (Hne : n <> name).
    { intros ->. apply (Hother r); [left; reflexivity|].
      unfold dict_item in Hn.
      destruct (dict_get (properties r) "name"); [|discriminate Hn].
      injection Hn as ->. reflexivity. }
    destruct pc as [pc|].
    + apply bind_Return_inv in H. destruct H as [res [_ H]].
      rewrite (IH _ _ Hrest H). apply dict_get_set_other. exact Hne.
    + apply (IH _ _ Hrest H).
Qed.

(** X8.  When regions share a name the later one replaces the earlier:
    the entry found under a name is the one computed for the last region
    of that name, with the members that region's ring contains. *)
Theorem count_universities_in_regions_last_wins
  (pre post universities : list Feature) (r : Feature) (name : string)
  (polygon_coords : list position) (d : list (string * RegionCount)) :
  dict_get (properties r) "name" = Some name ->
  region_polygon_coords (geometry r) = Return (Some polygon_coords) ->
  (forall r', In r' post -> dict_get (properties r') "name" <> Some name) ->
  run (pre ++ r :: post) universities = Return d ->
  exists e,
    dict_get d name = Some e
    /\ region e = r
    /\ UniversityMap.universities e = filter (inside polygon_coords) universities
    /\ count e = Z.of_nat (List.length (UniversityMap.universities e)).
Proof.
  intros Hname Hpc Hpost Hrun. unfold count_universities_in_regions in Hrun.
  rewrite count_regions_loop_app in Hrun.
  apply bind_Return_inv in Hrun. destruct Hrun as [d1 [_ Hrun]].
  simpl in Hrun. unfold dict_item in Hrun. rewrite Hname, Hpc in Hrun.
  simpl in Hrun.
  apply bind_Return_inv in Hrun. destruct Hrun as [[c members] [Hchk Hrun]].
  apply (@check_universities_filter Point_is_empty Polygon_contains) in Hchk.
  destruct Hchk as [-> ->]. simpl in Hrun.
  exists (mkRegionCount
            (Z.of_nat (List.length (filter (inside polygon_coords) universities)))
            (filter (inside polygon_coords) universities) r).
  split; [|simpl; auto].
  rewrite (@count_regions_loop_other_names universities name post _ d Hpost Hrun).
  apply dict_get_set_same.
Qed.

End AggregationMore.

Lemma count_universities_in_regions_skips_other_geometry_witness :
  count_universities_in_regions nan_is_empty even_odd_contains
    ([polygon_region "A" square_A]
       ++ mkFeature [("name", "Path")]%string footpath
       :: [polygon_region "B" square_B])
    [campus; annex]
  = count_universities_in_regions nan_is_empty even_odd_contains
      ([polygon_region "A" square_A] ++ [polygon_region "B" square_B])
      [campus; annex].
Proof.
  apply (@count_universities_in_regions_skips_other_geometry
           nan_is_empty even_odd_contains
           [polygon_region "A" square_A] [polygon_region "B" square_B]
           [campus; annex] (mkFeature [("name", "Path")]%string footpath)
           "Path"%string).
  - reflexivity.
  - simpl. discriminate.
  - simpl. discriminate.
Defined.

Lemma count_universities_in_regions_missing_name_witness :
  fails (count_universities_in_regions nan_is_empty even_odd_contains
           [polygon_region "A" square_A; unnamed_region] [campus])
  /\ forall rest,
       count_universities_in_regions nan_is_empty even_odd_contains
         (unnamed_region :: rest) [campus]
       = Raise KeyError.
Proof.
  apply (@count_universities_in_regions_missing_name
           nan_is_empty even_odd_contains
           [polygon_region "A" square_A; unnamed_region] [campus] unnamed_region).
  - right. left. reflexivity.
  - reflexivity.
Defined.

Lemma count_universities_in_regions_keys_witness :
  NoDup (map fst overlap_counts)
  /\ (List.length overlap_counts <= List.length overlapping_regions)%nat.
Proof.
  apply (@count_universities_in_regions_keys nan_is_empty even_odd_contains
           overlapping_regions [campus; annex] overlap_counts).
  vm_compute. reflexivity.
Defined.


Lemma count_universities_in_regions_last_wins_witness :
  exists e,
    dict_get [("A"%string, mkRegionCount 1 [campus] (polygon_region "A" square_B))]
             "A" = Some e
    /\ region e = polygon_region "A" square_B
    /\ universities e
       = filter (fun u => returns_true
                   (university_in_polygon nan_is_empty even_odd_contains u square_B))
                [campus; annex]
    /\ count e = Z.of_nat (List.length (universities e)).
Proof.
  apply (@count_universities_in_regions_last_wins
           nan_is_empty even_odd_contains
           [polygon_region "A" square_A] [] [campus; annex]
           (polygon_region "A" square_B) "A"%string square_B).
  - reflexivity.
  - reflexivity.
  - intros r' [].
  - vm_compute. reflexivity.
Defined.

(** ** Unreadable targets *)

Section TargetErrors.

Variable Point_is_empty : Point -> bool.
Variable Polygon_contains : list position -> Point -> result bool.

Local Notation check := (check_universities Point_is_empty Polygon_contains).
Local Notation loop := (count_regions_loop Point_is_empty Polygon_contains).

Lemma check_universities_all_return (polygon_coords : list position) :
  forall (targets : list Feature) (count0 : Z) (acc : list Feature)
         (res : Z * list Feature),
    check polygon_coords targets count0 acc = Return res ->
    forall u, In u targets ->
      exists c, get_geometry_center (geometry u) = Return c.
Proof.
  induction targets as [|t targets IH]; intros count0 acc res H u Hu;
    [destruct Hu|].
  simpl in H. apply bind_Return_inv in H. destruct H as [b [Hb H]].
  destruct Hu as [->|Hu].
  - unfold university_in_polygon in Hb.
    apply bind_Return_inv in Hb. destruct Hb as [c [Hc _]].
    exists c. exact Hc.
  - destruct b; apply (IH _ _ _ H u Hu).
Qed.

Lemma count_regions_loop_checked (universities : list Feature) :
  forall (regions : list Feature) (d0 d : list (string * RegionCount)),
    loop regions universities d0 = Return d ->
    d = d0
    \/ exists polygon_coords res,
         check polygon_coords universities 0%Z [] = Return res.
Proof.
  induction regions as [|r regions IH]; intros d0 d; simpl.
  - intros H. injection H as <-. left. reflexivity.
  - intros H.
    apply bind_Return_inv in H. destruct H as [name [_ H]].
    apply bind_Return_inv in H. destruct H as [pc [_ H]].
    destruct pc as [pc|].
    + apply bind_Return_inv in H. destruct H as [res [Hchk _]].
      right. exists pc, res. exact Hchk.
    + apply (IH _ _ H).
Qed.

(** X9.  When the function returns at least one entry, the geometry of
    every target was read without error: one target whose geometry
    cannot be read (a Polygon without rings, say) makes the whole count
    raise as soon as a region is tested. *)
Theorem count_universities_in_regions_targets_readable
  (regions universities : list Feature) (d : list (string * RegionCount)) :
  count_universities_in_regions Point_is_empty Polygon_contains regions universities
  = Return d ->
  d <> [] ->
  forall u, In u universities -> ~ fails (get_geometry_center (geometry u)).
Proof.
  intros H Hne u Hu [e He].
  apply count_regions_loop_checked in H.
  destruct H as [->|[pc [res Hchk]]]; [contradiction|].
  destruct (check_universities_all_return _ _ _ _ Hchk u Hu) as [c Hc].
  rewrite Hc in He. discriminate He.
Qed.

End TargetErrors.

Lemma count_universities_in_regions_targets_readable_witness :
  ~ fails (get_geometry_center (geometry annex)).
Proof.
  refine (@count_universities_in_regions_targets_readable
            nan_is_empty even_odd_contains overlapping_regions [campus; annex]
            overlap_counts _ _ annex _).
  - vm_compute. reflexivity.
  - discriminate.
  - right. left. reflexivity.
Defined.

(** ** Colours of the regions *)

Lemma string_length_append (s1 s2 : string) :
  String.length (s1 ++ s2) = (String.length s1 + String.length s2)%nat.
Proof.
  induction s1 as [|c s1 IH]; simpl; [reflexivity|]. rewrite IH. reflexivity.
Qed.

Lemma fold_left_min_le (l : list Z) :
  forall a : Z,
    (fold_left Z.min l a <= a)%Z
    /\ forall c, In c l -> (fold_left Z.min l a <= c)%Z.
Proof.
  induction l as [|b l IH]; intros a; simpl.
  - split; [lia | intros c []].
  - destruct (IH (Z.min a b)) as [H1 H2]. split; [lia|].
    intros c [<-|Hc]; [lia | apply H2; exact Hc].
Qed.

Lemma fold_left_max_ge (l : list Z) :
  forall a : Z,
    (a <= fold_left Z.max l a)%Z
    /\ forall c, In c l -> (c <= fold_left Z.max l a)%Z.
Proof.
  induction l as [|b l IH]; intros a; simpl.
  - split; [lia | intros c []].
  - destruct (IH (Z.max a b)) as [H1 H2]. split; [lia|].
    intros c [<-|Hc]; [lia | apply H2; exact Hc].
Qed.

Lemma min_max_count_of (counts : list Z) (c : Z) :
  In c counts -> (min_count_of counts <= c <= max_count_of counts)%Z.
Proof.
  destruct counts as [|a counts]; intros Hc; [destruct Hc|].
  unfold min_count_of, max_count_of.
  destruct (fold_left_min_le counts a) as [H1 H2].
  destruct (fold_left_max_ge counts a) as [H3 H4].
  destruct Hc as [<-|Hc]; [lia|].
  split; [apply H2 | apply H4]; exact Hc.
Qed.

Lemma get_color_channels_range (count mn mx : Z) :
  (mn < mx)%Z -> (mn <= count <= mx)%Z ->
  exists red green blue,
    get_color_channels count mn mx = (red, green, blue)
    /\ (18 <= red <= 230)%Z /\ (10 <= green <= 243)%Z /\ (143 <= blue <= 255)%Z.
Proof.
  intros Hlt Hrange.
  destruct (get_color_channels_float Hlt Hrange)
    as [red [green [blue [Hch [Hr [Hg [Hb _]]]]]]].
  exists red, green, blue. auto.
Qed.

Lemma get_color_in_range (count mn mx : Z) :
  (mn <= count <= mx)%Z ->
  String.length (get_color count mn mx) = 7%nat
  /\ (get_color count mn mx = "#E6F3FF"%string
      \/ exists red green blue,
           get_color count mn mx
           = ("#" ++ format_02x red ++ format_02x green ++ format_02x blue)%string
           /\ (18 <= red <= 230)%Z /\ (10 <= green <= 243)%Z
           /\ (143 <= blue <= 255)%Z).
Proof.
  intros Hrange. unfold get_color.
  destruct (Z.eqb_spec mx mn) as [Heq|Hne].
  - split; [reflexivity | left; reflexivity].
  - destruct (@get_color_channels_range count mn mx ltac:(lia) Hrange)
      as [red [green [blue [Hch [Hr [Hg Hb]]]]]].
    rewrite Hch. split.
    + rewrite !string_length_append.
      destruct (@format_02x_byte red ltac:(lia)) as [-> _].
      destruct (@format_02x_byte green ltac:(lia)) as [-> _].
      destruct (@format_02x_byte blue ltac:(lia)) as [-> _].
      reflexivity.
    + right. exists red, green, blue. auto.
Qed.

(** X10.  Every region of the result gets a colour, under its own name
    and in the order of the result; each colour is seven characters long:
    the constant ["#E6F3FF"] or a [#] followed by three two-digit
    channels that lie between the dark and the light endpoint. *)
Theorem region_colors_well_formed (region_counts : list (string * RegionCount)) :
  map fst (region_colors region_counts) = map fst region_counts
  /\ forall name color,
       In (name, color) (region_colors region_counts) ->
       String.length color = 7%nat
       /\ (color = "#E6F3FF"%string
           \/ exists red green blue,
                color
                = ("#" ++ format_02x red ++ format_02x green
                       ++ format_02x blue)%string
                /\ (18 <= red <= 230)%Z /\ (10 <= green <= 243)%Z
                /\ (143 <= blue <= 255)%Z).
Proof.
  split.
  - unfold region_colors. rewrite map_map. reflexivity.
  - intros name color Hin. unfold region_colors in Hin.
    apply in_map_iff in Hin. destruct Hin as [item [Heq Hitem]].
    injection Heq as _ <-.
    apply get_color_in_range. apply min_max_count_of.
    apply in_map_iff. exists item. split; [reflexivity | exact Hitem].
Qed.

Lemma region_colors_well_formed_witness :
  region_colors overlap_counts
  = [("A"%string, "#120a8f"%string); ("B"%string, "#e6f3ff"%string)]
  /\ String.length "#120a8f" = 7%nat
  /\ ("#120a8f"%string = "#E6F3FF"%string
      \/ exists red green blue,
           "#120a8f"%string
           = ("#" ++ format_02x red ++ format_02x green ++ format_02x blue)%string
           /\ (18 <= red <= 230)%Z /\ (10 <= green <= 243)%Z
           /\ (143 <= blue <= 255)%Z).
Proof.
  split; [vm_compute; reflexivity|].
  apply (proj2 (region_colors_well_formed overlap_counts) "A"%string).
  vm_compute. left. reflexivity.
Defined.

Lemma py_int_of_Z (v : Q) (z : Z) : (v == inject_Z z)%Q -> py_int v = z.
Proof.
  destruct v as [n d]. unfold Qeq, py_int. simpl. intros H.
  rewrite Z.mul_1_r in H. rewrite H. apply Z.quot_mul. discriminate.
Qed.

(** X11.  On a range with [min_count < max_count] the smallest count is
    drawn in the light endpoint [#e6f3ff] and the largest in the dark
    endpoint [#120a8f]. *)
Theorem get_color_endpoints (min_count max_count : Z) :
  (min_count < max_count)%Z ->
  get_color min_count min_count max_count = "#e6f3ff"%string
  /\ get_color max_count min_count max_count = "#120a8f"%string.
Proof.
  intros Hlt.
  assert (Hd : ~ (inject_Z (max_count - min_count) == 0)%Q).
  { change 0%Q with (inject_Z 0). rewrite inject_Z_injective. lia. }
  unfold get_color.
  destruct (Z.eqb_spec max_count min_count) as [Heq|_]; [lia|].
  unfold get_color_channels. split.
  - rewrite Z.sub_diag.
    assert (E : (inject_Z 0 / inject_Z (max_count - min_count) == 0)%Q)
      by (unfold inject_Z at 1; field; exact Hd).
    rewrite (@py_int_of_Z _ 230), (@py_int_of_Z _ 243), (@py_int_of_Z _ 255);
      [reflexivity | | |]; rewrite E; vm_compute; reflexivity.
  - set (a := inject_Z (max_count - min_count)) in *.
    assert (E : (a / a == 1)%Q) by (field; exact Hd).
    rewrite (@py_int_of_Z _ 18), (@py_int_of_Z _ 10), (@py_int_of_Z _ 143);
      [reflexivity | | |]; rewrite E; vm_compute; reflexivity.
Qed.

Lemma get_color_endpoints_witness :
  get_color 0 0 3 = "#e6f3ff"%string /\ get_color 3 0 3 = "#120a8f"%string.
Proof.
  apply (@get_color_endpoints 0 3). lia.
Defined.

Lemma truncates_to_mono (v w : Q) (c d : Z) :
  (v <= w)%Q -> truncates_to v c -> truncates_to w d -> (c <= d)%Z.
Proof.
  intros Hle [Hv0 Hv1] [Hw0 Hw1].
  destruct (Qlt_le_dec v 0) as [Hvneg|Hvpos].
  - destruct (Hv1 (Qlt_le_weak _ _ Hvneg)) as [Hc1 Hc2].
    destruct (Qlt_le_dec 0 w) as [Hwpos|Hwneg].
    + destruct (Hw0 (Qlt_le_weak _ _ Hwpos)) as [Hd1 Hd2].
      assert (H1 : (inject_Z c - 1 < inject_Z 0)%Q) by (unfold inject_Z at 2; lra).
      assert (H2 : (inject_Z 0 < inject_Z d + 1)%Q) by (unfold inject_Z at 1; lra).
      change 1%Q with (inject_Z 1) in H1, H2.
      unfold Qminus in H1. rewrite <- inject_Z_opp, <- inject_Z_plus in H1.
      rewrite <- inject_Z_plus in H2.
      rewrite <- Zlt_Qlt in H1, H2. lia.
    + destruct (Hw1 Hwneg) as [Hd1 Hd2].
      assert (H1 : (inject_Z c - 1 < inject_Z d)%Q) by lra.
      change 1%Q with (inject_Z 1) in H1.
      unfold Qminus in H1. rewrite <- inject_Z_opp, <- inject_Z_plus in H1.
      rewrite <- Zlt_Qlt in H1. lia.
  - destruct (Hv0 Hvpos) as [Hc1 Hc2].
    assert (Hwpos : (0 <= w)%Q) by lra.
    destruct (Hw0 Hwpos) as [Hd1 Hd2].
    assert (H1 : (inject_Z c < inject_Z d + 1)%Q) by lra.
    change 1%Q with (inject_Z 1) in H1.
    rewrite <- inject_Z_plus in H1.
    rewrite <- Zlt_Qlt in H1. lia.
Qed.

(** A channel does not grow with the parameter: every rounding is
    monotone. *)
Lemma channel_antitone (a k t1 t2 : Q) :
  (0 <= k)%Q -> (t1 <= t2)%Q ->
  (fl (a - fl (k * fl t2)) <= fl (a - fl (k * fl t1)))%Q.
Proof.
  intros Hk Ht.
  apply fl_mono.
  assert (H : (fl (k * fl t1) <= fl (k * fl t2))%Q).
  { apply fl_mono. apply Qmult_le_left; [exact Hk|]. apply fl_mono. exact Ht. }
  lra.
Qed.

(** X12.  On a range with [min_count < max_count] a larger count never
    gets a lighter colour: each of the three channels computed for the
    larger count is at most the one computed for the smaller count. *)
Theorem get_color_channels_antitone (count1 count2 min_count max_count : Z) :
  (min_count < max_count)%Z ->
  (count1 <= count2)%Z ->
  exists r1 g1 b1 r2 g2 b2,
    get_color_channels count1 min_count max_count = (r1, g1, b1)
    /\ get_color_channels count2 min_count max_count = (r2, g2, b2)
    /\ (r2 <= r1)%Z /\ (g2 <= g1)%Z /\ (b2 <= b1)%Z.
Proof.
  intros Hlt Hle. unfold get_color_channels.
  set (t1 := (inject_Z (count1 - min_count) / inject_Z (max_count - min_count))%Q).
  set (t2 := (inject_Z (count2 - min_count) / inject_Z (max_count - min_count))%Q).
  assert (Ht : (t1 <= t2)%Q).
  { unfold t1, t2, Qdiv. apply Qmult_le_compat_r.
    - rewrite <- Zle_Qle. lia.
    - apply Qinv_le_0_compat. change 0%Q with (inject_Z 0).
      rewrite <- Zle_Qle. lia. }
  do 6 eexists. split; [reflexivity|]. split; [reflexivity|].
  split; [|split].
  - apply truncates_to_mono with (fl (230 - fl (212 * fl t2))) (fl (230 - fl (212 * fl t1)));
      [apply channel_antitone; [lra | exact Ht]
      | apply py_int_truncates | apply py_int_truncates].
  - apply truncates_to_mono with (fl (243 - fl (233 * fl t2))) (fl (243 - fl (233 * fl t1)));
      [apply channel_antitone; [lra | exact Ht]
      | apply py_int_truncates | apply py_int_truncates].
  - apply truncates_to_mono with (fl (255 - fl (112 * fl t2))) (fl (255 - fl (112 * fl t1)));
      [apply channel_antitone; [lra | exact Ht]
      | apply py_int_truncates | apply py_int_truncates].
Qed.

Lemma get_color_channels_antitone_witness :
  exists r1 g1 b1 r2 g2 b2,
    get_color_channels 1 0 3 = (r1, g1, b1)
    /\ get_color_channels 2 0 3 = (r2, g2, b2)
    /\ (r2 <= r1)%Z /\ (g2 <= g1)%Z /\ (b2 <= b1)%Z.
Proof.
  apply (@get_color_channels_antitone 1 2 0 3); lia.
Defined.

(** ** Legend ticks *)

Lemma tick_value_mono (mn mx a b : Z) :
  (mn <= mx)%Z -> (a <= b)%Z ->
  (inject_Z mn + inject_Z ((mx - mn) * a) / inject_Z 5
   <= inject_Z mn + inject_Z ((mx - mn) * b) / inject_Z 5)%Q.
Proof.
  intros Hm Hab.
  assert (H : (inject_Z ((mx - mn) * a) <= inject_Z ((mx - mn) * b))%Q).
  { rewrite <- Zle_Qle. nia. }
  unfold Qdiv. change (/ inject_Z 5)%Q with (1 # 5)%Q. lra.
Qed.

(** X13.  For [min_val <= max_val] the six tick labels of the legend
    start at [min_val], end at [max_val] and never decrease. *)
Theorem legend_tick_values_sorted (min_val max_val : Z) :
  (min_val <= max_val)%Z ->
  exists t1 t2 t3 t4 : Z,
    legend_tick_values min_val max_val = [min_val; t1; t2; t3; t4; max_val]
    /\ (min_val <= t1 <= t2)%Z /\ (t2 <= t3 <= t4)%Z /\ (t4 <= max_val)%Z.
Proof.
  intros Hm. unfold legend_tick_values.
  cbv [seq map].
  set (tick := fun i : Z =>
         py_round (inject_Z min_val
                   + inject_Z ((max_val - min_val) * i) / inject_Z 5)%Q).
  change (exists t1 t2 t3 t4 : Z,
    [tick (Z.of_nat 0); tick (Z.of_nat 1); tick (Z.of_nat 2); tick (Z.of_nat 3);
     tick (Z.of_nat 4); tick (Z.of_nat 5)]
    = [min_val; t1; t2; t3; t4; max_val]
    /\ (min_val <= t1 <= t2)%Z /\ (t2 <= t3 <= t4)%Z /\ (t4 <= max_val)%Z).
  assert (Hmono : forall a b, (a <= b)%Z -> (tick a <= tick b)%Z).
  { intros a b Hab. unfold tick. apply py_round_mono.
    apply tick_value_mono; assumption. }
  assert (H0 : tick 0%Z = min_val).
  { unfold tick. apply py_round_of_Z.
    rewrite Z.mul_0_r. unfold Qdiv. change (inject_Z 0) with 0%Q. lra. }
  assert (H5 : tick 5%Z = max_val).
  { unfold tick. apply py_round_of_Z.
    rewrite inject_Z_mult. unfold Zminus. rewrite inject_Z_plus, inject_Z_opp.
    change (inject_Z 5) with 5%Q. field. }
  exists (tick 1%Z), (tick 2%Z), (tick 3%Z), (tick 4%Z).
  change (Z.of_nat 0) with 0%Z. change (Z.of_nat 1) with 1%Z.
  change (Z.of_nat 2) with 2%Z. change (Z.of_nat 3) with 3%Z.
  change (Z.of_nat 4) with 4%Z. change (Z.of_nat 5) with 5%Z.
  rewrite H0, H5.
  split; [reflexivity|].
  pose proof (Hmono 0%Z 1%Z ltac:(lia)) as M01.
  pose proof (Hmono 1%Z 2%Z ltac:(lia)) as M12.
  pose proof (Hmono 2%Z 3%Z ltac:(lia)) as M23.
  pose proof (Hmono 3%Z 4%Z ltac:(lia)) as M34.
  pose proof (Hmono 4%Z 5%Z ltac:(lia)) as M45.
  rewrite H0 in M01. rewrite H5 in M45. lia.
Qed.

Lemma legend_tick_values_sorted_witness :
  exists t1 t2 t3 t4 : Z,
    legend_tick_values 0 7 = [0; t1; t2; t3; t4; 7]%Z
    /\ (0 <= t1 <= t2)%Z /\ (t2 <= t3 <= t4)%Z /\ (t4 <= 7)%Z.
Proof.
  apply (@legend_tick_values_sorted 0 7). lia.
Defined.

(** ** Total in the legend *)

Lemma fold_left_add_bounds (bound : Z) (l : list Z) :
  (forall c, In c l -> (0 <= c <= bound)%Z) ->
  forall a : Z,
    (a <= fold_left Z.add l a <= a + Z.of_nat (List.length l) * bound)%Z.
Proof.
  induction l as [|b l IH]; intros Hall a.
  - simpl. lia.
  - assert (Hb : (0 <= b <= bound)%Z) by (apply Hall; left; reflexivity).
    assert (Hl : forall c, In c l -> (0 <= c <= bound)%Z)
      by (intros c Hc; apply Hall; right; exact Hc).
    specialize (IH Hl (a + b)%Z).
    change (fold_left Z.add (b :: l) a) with (fold_left Z.add l (a + b)%Z).
    change (List.length (b :: l)) with (S (List.length l)).
    rewrite Nat2Z.inj_succ. nia.
Qed.

(** X23.  The total shown in the legend adds up the counts of all
    entries: it lies between 0 and the number of entries times the
    number of targets. *)
Theorem total_universities_bounds
  (is_empty : Point -> bool) (contains : list position -> Point -> result bool)
  (regions universities : list Feature) (d : list (string * RegionCount)) :
  count_universities_in_regions is_empty contains regions universities = Return d ->
  (0 <= total_universities d
   <= Z.of_nat (List.length d) * Z.of_nat (List.length universities))%Z.
Proof.
  intros H. unfold total_universities.
  pose proof (@fold_left_add_bounds (Z.of_nat (List.length universities))
                (map (fun item : string * RegionCount => count (snd item)) d)) as Hb.
  rewrite length_map in Hb.
  assert (Hall : forall c,
             In c (map (fun item : string * RegionCount => count (snd item)) d) ->
             (0 <= c <= Z.of_nat (List.length universities))%Z).
  { intros c Hc. apply in_map_iff in Hc. destruct Hc as [[name e] [<- He]].
    destruct (@count_universities_in_regions_entries is_empty contains
                regions universities d H (name, e) He)
      as [_ [_ [pc [_ [Hmem Hcount]]]]].
    simpl in *. rewrite Hcount, Hmem.
    pose proof (filter_length_le
                  (fun u => returns_true
                     (university_in_polygon is_empty contains u pc))
                  universities). lia. }
  specialize (Hb Hall 0%Z). lia.
Qed.

Lemma total_universities_bounds_witness :
  total_universities overlap_counts = 3%Z
  /\ (0 <= total_universities overlap_counts
      <= Z.of_nat (List.length overlap_counts)
         * Z.of_nat (List.length [campus; annex]))%Z.
Proof.
  split; [reflexivity|].
  apply (@total_universities_bounds nan_is_empty even_odd_contains
           overlapping_regions [campus; annex] overlap_counts).
  vm_compute. reflexivity.
Defined.

End UniversityMapProps.

Module GeospatialAnalysisProps.

Import GeospatialAnalysis.

(** ** Case-blind search *)

Section SearchProps.

Variable char_matches : N -> N -> bool.

Local Notation same_letters :=
  (Forall2 (fun p c : N => char_matches p c = true)).

Lemma starts_with_ci_spec (pat : pystr) :
  forall s : pystr,
    starts_with_ci char_matches pat s = true
    <-> exists mid post, s = mid ++ post /\ same_letters pat mid.
Proof.
  induction pat as [|p pat IH]; intros s.
  - simpl. split; [|reflexivity].
    intros _. exists [], s. split; [reflexivity | constructor].
  - destruct s as [|c s]; simpl.
    + split; [discriminate|].
      intros [mid [post [Hs Hm]]].
      inversion Hm; subst. discriminate Hs.
    + rewrite andb_true_iff, IH. split.
      * intros [Hpc [mid [post [-> Hm]]]].
        exists (c :: mid), post. split; [reflexivity|].
        constructor; assumption.
      * intros [mid [post [Hs Hm]]].
        inversion Hm as [|p' c' pat' mid' Hpc Hrest]; subst.
        simpl in Hs. injection Hs as <- ->.
        split; [exact Hpc|]. exists mid', post. split; [reflexivity|exact Hrest].
Qed.

Lemma search_ci_cons (pat : pystr) (c : N) (s : pystr) :
  search_ci char_matches pat (c :: s)
  = starts_with_ci char_matches pat (c :: s) || search_ci char_matches pat s.
Proof. reflexivity. Qed.

Lemma search_ci_spec (pat : pystr) :
  forall s : pystr,
    search_ci char_matches pat s = true <-> contains_ci char_matches pat s.
Proof.
  unfold contains_ci.
  induction s as [|c s IH].
  - change (search_ci char_matches pat [])
      with (starts_with_ci char_matches pat [] || false).
    rewrite orb_false_r, starts_with_ci_spec. split.
    + intros [mid [post [Hs Hm]]]. exists [], mid, post. split; assumption.
    + intros [pre [mid [post [Hs Hm]]]].
      destruct pre; [|discriminate Hs]. exists mid, post. split; assumption.
  - rewrite search_ci_cons, orb_true_iff, starts_with_ci_spec, IH. split.
    + intros [[mid [post [Hs Hm]]] | [pre [mid [post [Hs Hm]]]]].
      * exists [], mid, post. split; assumption.
      * exists (c :: pre), mid, post. simpl. rewrite Hs. split; [reflexivity|exact Hm].
    + intros [pre [mid [post [Hs Hm]]]].
      destruct pre as [|c' pre].
      * left. exists mid, post. split; assumption.
      * right. simpl in Hs. injection Hs as <- ->.
        exists pre, mid, post. split; [reflexivity|exact Hm].
Qed.

(** Two patterns whose letters pass the same tests find the same strings. *)
Lemma starts_with_ci_same_tests (p q : pystr) :
  Forall2 (fun a b : N => forall c, char_matches a c = char_matches b c) p q ->
  forall s, starts_with_ci char_matches p s = starts_with_ci char_matches q s.
Proof.
  induction 1 as [|a b p q Hab _ IH]; intros s; [reflexivity|].
  destruct s as [|c s]; simpl; [reflexivity|].
  rewrite Hab, IH. reflexivity.
Qed.

Lemma search_ci_same_tests (p q : pystr) :
  Forall2 (fun a b : N => forall c, char_matches a c = char_matches b c) p q ->
  forall s, search_ci char_matches p s = search_ci char_matches q s.
Proof.
  intros H. induction s as [|c s IH].
  - simpl. rewrite (starts_with_ci_same_tests H). reflexivity.
  - rewrite !search_ci_cons, IH, (starts_with_ci_same_tests H). reflexivity.
Qed.

End SearchProps.

(** On the code points below 128 the case test of the examples is the
    comparison of the ASCII small letters. *)
Lemma lower_matches_ascii (p c : N) :
  (p < 128)%N -> (c < 128)%N -> lower_matches p c = (lower p =? lower c)%N.
Proof. reflexivity. Qed.

Lemma lower_capital (p : N) :
  (65 <= p <= 90 \/ 1040 <= p <= 1071)%N -> lower (p + 32) = lower p.
Proof.
  intros Hp. unfold lower.
  repeat match goal with
         | |- context [(?x <=? ?y)%N] => destruct (N.leb_spec x y)
         end; simpl; lia.
Qed.

(** ** Boundary resolution *)

Section BoundaryProps.

Variable Geom : Type.
Variable char_matches : N -> N -> bool.
Variable re_compile_ignorecase : pystr -> option (pystr -> bool).

Local Notation hit variant :=
  (fun r : Row Geom =>
     contains_entry (search_ci char_matches variant) (cell r "name")).

Local Notation loop := (boundary_loop char_matches re_compile_ignorecase).
Local Notation resolve := (irkutsk_boundary char_matches re_compile_ignorecase).

Lemma hit_spec (variant : pystr) (r : Row Geom) :
  hit variant r = true <-> name_matches char_matches variant r.
Proof.
  unfold contains_entry, name_matches.
  destruct (cell r "name") as [[s|z]|].
  - rewrite search_ci_spec. split.
    + intros H. exists s. split; [reflexivity|exact H].
    + intros [s' [Hs H]]. injection Hs as <-. exact H.
  - split; [discriminate|]. intros [s [Hs _]]. discriminate Hs.
  - split; [discriminate|]. intros [s [Hs _]]. discriminate Hs.
Qed.

Lemma select_mask (frame : GeoDataFrame Geom) (f : Row Geom -> bool) :
  select frame (map f (rows frame)) = mkFrame (columns frame) (filter f (rows frame)).
Proof.
  unfold select. f_equal.
  induction (rows frame) as [|r l IH]; simpl; [reflexivity|].
  destruct (f r); simpl; rewrite IH; reflexivity.
Qed.

Lemma any_mask (l : list (Row Geom)) (f : Row Geom -> bool) :
  existsb (fun b => b) (map f l) = existsb f l.
Proof.
  induction l as [|r l IH]; simpl; [reflexivity|]. rewrite IH. reflexivity.
Qed.

(** One turn of the loop on a variant free of regular expression syntax. *)
Lemma boundary_loop_literal
  (settlements : GeoDataFrame Geom) (w : pystr) (rest : list pystr) :
  is_literal w = true ->
  has_column settlements "name" = true ->
  loop (w :: rest) settlements
  = if existsb (hit w) (rows settlements)
    then Return (Some (mkFrame (columns settlements)
                         (filter (hit w) (rows settlements))))
    else loop rest settlements.
Proof.
  intros Hlit Hcol. simpl. rewrite Hcol.
  unfold column, str_contains, compile_pattern. rewrite Hcol, Hlit. simpl.
  rewrite map_map, any_mask, select_mask. reflexivity.
Qed.

Lemma boundary_loop_no_column
  (settlements : GeoDataFrame Geom) (variants : list pystr) :
  has_column settlements "name" = false ->
  loop variants settlements = Return None.
Proof.
  intros Hcol. induction variants as [|w variants IH]; simpl; [reflexivity|].
  rewrite Hcol. exact IH.
Qed.

(** A variant that matches no candidate is passed over. *)
Lemma boundary_loop_skip (settlements : GeoDataFrame Geom) (pre rest : list pystr) :
  (forall w, In w pre -> is_literal w = true) ->
  (forall w r, In w pre -> In r (rows settlements) -> hit w r = false) ->
  loop (pre ++ rest) settlements = loop rest settlements.
Proof.
  induction pre as [|w pre IH]; intros Hlit Hno; [reflexivity|].
  assert (IH' : loop (pre ++ rest) settlements = loop rest settlements).
  { apply IH.
    - intros w' Hw. apply Hlit. right. exact Hw.
    - intros w' r Hw Hr. apply Hno; [right; exact Hw | exact Hr]. }
  destruct (has_column settlements "name") eqn:Hcol.
  - change ((w :: pre) ++ rest) with (w :: pre ++ rest).
    rewrite boundary_loop_literal; [|apply Hlit; left; reflexivity | exact Hcol].
    assert (Hf : existsb (hit w) (rows settlements) = false).
    { destruct (existsb (hit w) (rows settlements)) eqn:E; [|reflexivity].
      apply existsb_exists in E. destruct E as [r [Hr Hm]].
      rewrite (Hno w r) in Hm; [discriminate | left; reflexivity | exact Hr]. }
    rewrite Hf. exact IH'.
  - simpl. rewrite Hcol. exact IH'.
Qed.

Lemma no_match_no_hit (variants : list pystr) (settlements : GeoDataFrame Geom) :
  (forall w r, In w variants -> In r (rows settlements) ->
               ~ name_matches char_matches w r) ->
  forall w r, In w variants -> In r (rows settlements) -> hit w r = false.
Proof.
  intros Hno w r Hw Hr.
  destruct (hit w r) eqn:E; [|reflexivity].
  exfalso. apply (Hno w r Hw Hr). apply hit_spec. exact E.
Qed.

Lemma irkutsk_boundary_match
  (settlements : GeoDataFrame Geom) (pre post : list pystr) (v : pystr) :
  (forall w, In w (pre ++ v :: post) -> is_literal w = true) ->
  has_column settlements "name" = true ->
  (forall w r, In w pre -> In r (rows settlements) ->
               ~ name_matches char_matches w r) ->
  (exists r, In r (rows settlements) /\ name_matches char_matches v r) ->
  resolve (pre ++ v :: post) settlements
  = Return (mkFrame (columns settlements) (filter (hit v) (rows settlements))).
Proof.
  intros Hlit Hcol Hpre [r [Hr Hm]].
  unfold irkutsk_boundary.
  rewrite boundary_loop_skip.
  2:{ intros w Hw. apply Hlit. apply in_or_app. left. exact Hw. }
  2:{ apply no_match_no_hit. exact Hpre. }
  assert (Hv : is_literal v = true).
  { apply Hlit. apply in_or_app. right. left. reflexivity. }
  rewrite boundary_loop_literal by assumption.
  assert (Hhit : hit v r = true) by (apply hit_spec; assumption).
  assert (Hany : existsb (hit v) (rows settlements) = true).
  { apply existsb_exists. exists r. split; assumption. }
  rewrite Hany. simpl.
  assert (Hin : In r (filter (hit v) (rows settlements))).
  { apply filter_In. split; assumption. }
  destruct (filter (hit v) (rows settlements)); [destruct Hin | reflexivity].
Qed.

Lemma irkutsk_boundary_fallback
  (settlements : GeoDataFrame Geom) (variants : list pystr) :
  (forall w, In w variants -> is_literal w = true) ->
  (forall w r, In w variants -> In r (rows settlements) ->
               ~ name_matches char_matches w r) ->
  resolve variants settlements = iloc0 settlements.
Proof.
  intros Hlit Hno. unfold irkutsk_boundary.
  rewrite <- (app_nil_r variants), boundary_loop_skip.
  - reflexivity.
  - exact Hlit.
  - apply no_match_no_hit. exact Hno.
Qed.

(** The resolution reads the case test only at the letters of the
    variants and of the names. *)
Lemma starts_with_ci_pointwise (f g : N -> N -> bool) (pat : pystr) :
  forall s : pystr,
    (forall p c, In p pat -> In c s -> f p c = g p c) ->
    starts_with_ci f pat s = starts_with_ci g pat s.
Proof.
  induction pat as [|p pat IH]; intros s Hfg; [reflexivity|].
  destruct s as [|c s]; simpl; [reflexivity|].
  rewrite (Hfg p c) by (left; reflexivity).
  rewrite IH; [reflexivity|].
  intros p' c' Hp Hc. apply Hfg; right; assumption.
Qed.

Lemma search_ci_pointwise (f g : N -> N -> bool) (pat : pystr) :
  forall s : pystr,
    (forall p c, In p pat -> In c s -> f p c = g p c) ->
    search_ci f pat s = search_ci g pat s.
Proof.
  induction s as [|c s IH]; intros Hfg.
  - simpl. rewrite (starts_with_ci_pointwise f g pat []); [reflexivity|exact Hfg].
  - rewrite !search_ci_cons.
    rewrite (starts_with_ci_pointwise f g pat (c :: s)) by exact Hfg.
    rewrite IH; [reflexivity|].
    intros p' c' Hp Hc. apply Hfg; [exact Hp | right; exact Hc].
Qed.

End BoundaryProps.

(** On ASCII names an ASCII variant is found, or not, by every case
    test that compares the ASCII small letters. *)
Lemma contains_entry_ascii
  (char_matches : N -> N -> bool) (v : pystr) (i : Z) (name : string)
  (g : Line.Geom) :
  (forall p c, (p < 128)%N -> (c < 128)%N ->
               char_matches p c = (lower p =? lower c)%N) ->
  is_ascii v = true -> is_ascii (py name) = true ->
  contains_entry (search_ci char_matches v) (cell (settlement i name g) "name")
  = contains_entry (search_ci lower_matches v) (cell (settlement i name g) "name").
Proof.
  intros Hascii Hv Hname.
  change (cell (settlement i name g) "name") with (Some (VStr (py name))).
  unfold contains_entry. apply search_ci_pointwise.
  intros p c Hp Hc. unfold is_ascii in Hv, Hname.
  rewrite forallb_forall in Hv, Hname.
  apply Hv in Hp. apply Hname in Hc.
  apply N.ltb_lt in Hp. apply N.ltb_lt in Hc.
  rewrite Hascii by assumption. reflexivity.
Qed.

(** C7 as stated fails for a variant that uses regular expression
    syntax, because [str.contains] searches for the variant as a pattern.
    The variant [.] is contained in neither "Irkutsk City" nor
    "Other Town", so the first candidate alone should be returned; the
    pattern matches every name and both candidates are.  The variant [(]
    is no pattern at all, and the resolution raises. *)
Lemma irkutsk_boundary_pattern_variant :
  irkutsk_boundary lower_matches re_compile_sample [py "."] candidates
  = Return candidates
  /\ (forall r, In r (rows candidates) -> ~ name_matches lower_matches (py ".") r)
  /\ irkutsk_boundary lower_matches re_compile_sample [py "("] candidates
     = Raise ReError.
Proof.
  split; [reflexivity|]. split; [|reflexivity].
  intros r Hr Hm. apply hit_spec in Hm.
  destruct Hr as [<-|[<-|[]]]; vm_compute in Hm; discriminate Hm.
Qed.

(** C7, amended.  With variants free of regular expression syntax, as
    the four of the script are: the variants are tried in order; for the
    first one that the name of some candidate contains (case ignored as
    the search engine ignores it, a missing name never matching) the
    result is the candidates whose name contains it, in their order; when
    no variant matches any candidate the result is the first candidate
    alone.  Under every case test that compares ASCII letters by their
    small letters, candidates "Irkutsk City" and "Other Town" resolve to
    the first candidate with the variants "Irkutsk" and its Cyrillic
    spelling, and fall back to the candidate at index 0 with the variant
    "Nowhere". *)
Theorem irkutsk_boundary_first_matching_variant :
  (forall (Geom : Type) (char_matches : N -> N -> bool)
          (re : pystr -> option (pystr -> bool))
          (settlements : GeoDataFrame Geom) (variants : list pystr),
      (forall w, In w variants -> is_literal w = true) ->
      (forall pre v post,
          variants = pre ++ v :: post ->
          has_column settlements "name" = true ->
          (forall w r, In w pre -> In r (rows settlements) ->
                       ~ name_matches char_matches w r) ->
          (exists r, In r (rows settlements) /\ name_matches char_matches v r) ->
          exists boundary,
            irkutsk_boundary char_matches re variants settlements = Return boundary
            /\ columns boundary = columns settlements
            /\ Subsequence (rows boundary) (rows settlements)
            /\ forall r, In r (rows boundary)
                         <-> In r (rows settlements)
                             /\ name_matches char_matches v r)
      /\ ((forall w r, In w variants -> In r (rows settlements) ->
                       ~ name_matches char_matches w r) ->
          forall r0 rest, rows settlements = r0 :: rest ->
            irkutsk_boundary char_matches re variants settlements
            = Return (mkFrame (columns settlements) [r0])))
  /\ (forall (char_matches : N -> N -> bool)
             (re : pystr -> option (pystr -> bool)),
         (forall p c, (p < 128)%N -> (c < 128)%N ->
                      char_matches p c = (lower p =? lower c)%N) ->
         irkutsk_boundary char_matches re
           [py "Irkutsk"; [1048; 1088; 1082; 1091; 1090; 1089; 1082]%N] candidates
         = Return (mkFrame (columns candidates)
                     [settlement 0 "Irkutsk City" (0, 1000)%Q])
         /\ irkutsk_boundary char_matches re [py "Nowhere"] candidates
            = Return (mkFrame (columns candidates)
                        [settlement 0 "Irkutsk City" (0, 1000)%Q])).
Proof.
  split.
  - intros Geom cm re settlements variants Hlit. split.
    + intros pre v post -> Hcol Hpre Hex.
      exists (mkFrame (columns settlements)
                (filter (fun r => contains_entry (search_ci cm v) (cell r "name"))
                        (rows settlements))).
      split; [apply irkutsk_boundary_match; assumption|].
      split; [reflexivity|].
      split; [apply Subsequence_filter|].
      intros r. simpl. rewrite filter_In.
      rewrite (@hit_spec Geom cm v r). reflexivity.
    + intros Hno r0 rest Hrows.
      rewrite irkutsk_boundary_fallback by assumption.
      unfold iloc0. rewrite Hrows. reflexivity.
  - intros cm re Hascii.
    assert (Hsame : forall v r,
               is_ascii v = true -> In r (rows candidates) ->
               contains_entry (search_ci cm v) (cell r "name")
               = contains_entry (search_ci lower_matches v) (cell r "name")).
    { intros v r Hv [<-|[<-|[]]];
        apply contains_entry_ascii; try assumption; reflexivity. }
    split.
    + change [py "Irkutsk"; [1048; 1088; 1082; 1091; 1090; 1089; 1082]%N]
        with ([] ++ py "Irkutsk" :: [[1048; 1088; 1082; 1091; 1090; 1089; 1082]%N]).
      rewrite (@irkutsk_boundary_match Line.Geom cm re candidates []
                 [[1048; 1088; 1082; 1091; 1090; 1089; 1082]%N] (py "Irkutsk")).
      * f_equal. f_equal.
        rewrite (filter_ext_in
                   (fun r => contains_entry (search_ci cm (py "Irkutsk"))
                               (cell r "name"))
                   (fun r => contains_entry (search_ci lower_matches (py "Irkutsk"))
                               (cell r "name"))
                   (rows candidates)).
        -- reflexivity.
        -- intros r Hr. apply Hsame; [reflexivity | exact Hr].
      * intros w [<-|[<-|[]]]; reflexivity.
      * reflexivity.
      * intros w r [].
      * exists (settlement 0 "Irkutsk City" (0, 1000)%Q).
        split; [left; reflexivity|].
        apply hit_spec. rewrite Hsame; [reflexivity | reflexivity | left; reflexivity].
    + rewrite irkutsk_boundary_fallback.
      * reflexivity.
      * intros w [<-|[]]. reflexivity.
      * intros w r [<-|[]] Hr Hm. apply hit_spec in Hm.
        rewrite Hsame in Hm; [|reflexivity | exact Hr].
        destruct Hr as [<-|[<-|[]]]; vm_compute in Hm; discriminate Hm.
Qed.

Lemma irkutsk_boundary_first_matching_variant_witness :
  (exists boundary,
      irkutsk_boundary lower_matches re_compile_sample
        ([] ++ py "Irkutsk" :: [[1048; 1088; 1082; 1091; 1090; 1089; 1082]%N])
        candidates = Return boundary
      /\ columns boundary = columns candidates
      /\ Subsequence (rows boundary) (rows candidates)
      /\ forall r, In r (rows boundary)
                   <-> In r (rows candidates)
                       /\ name_matches lower_matches (py "Irkutsk") r)
  /\ irkutsk_boundary lower_matches re_compile_sample [py "Nowhere"] candidates
     = Return (mkFrame (columns candidates)
                 [settlement 0 "Irkutsk City" (0, 1000)%Q]).
Proof.
  split.
  - refine (proj1 (proj1 irkutsk_boundary_first_matching_variant
                     Line.Geom lower_matches re_compile_sample candidates
                     ([] ++ py "Irkutsk"
                         :: [[1048; 1088; 1082; 1091; 1090; 1089; 1082]%N])
                     _)
              [] (py "Irkutsk") [[1048; 1088; 1082; 1091; 1090; 1089; 1082]%N]
              _ _ _ _).
    + intros w [<-|[<-|[]]]; reflexivity.
    + reflexivity.
    + reflexivity.
    + intros w r [].
    + exists (settlement 0 "Irkutsk City" (0, 1000)%Q).
      split; [left; reflexivity|].
      exists (py "Irkutsk City"). split; [reflexivity|].
      exists [], (py "Irkutsk"), (py " City"). split; [reflexivity|].
      repeat constructor.
  - apply (proj2 irkutsk_boundary_first_matching_variant
             lower_matches re_compile_sample).
    intros p c _ _. reflexivity.
Defined.

(** The four variants of the script are free of regular expression
    syntax; with the case test of the examples they resolve the two
    candidates to the first one. *)
Example irkutsk_variants_literal :
  forallb is_literal irkutsk_variants = true
  /\ irkutsk_boundary lower_matches re_compile_sample irkutsk_variants candidates
     = Return (mkFrame (columns candidates)
                 [settlement 0 "Irkutsk City" (0, 1000)%Q]).
Proof. split; reflexivity. Qed.

(** ** Road categories within a radius *)

Lemma In_dropna (series : list (option value)) (v : value) :
  In v (dropna series) <-> In (Some v) series.
Proof.
  unfold dropna. rewrite in_flat_map. split.
  - intros [c [Hc Hv]]. destruct c as [w|]; [|destruct Hv].
    destruct Hv as [->|[]]. exact Hc.
  - intros H. exists (Some v). split; [exact H | left; reflexivity].
Qed.

Section RadiusProps.

Variable Geom : Type.
Variable buffer : Geom -> Q -> Geom.
Variable intersects : Geom -> Geom -> bool.

Local Notation near park radius :=
  (fun r : Row Geom => intersects (geometry r) (buffer (geometry park) radius)).

(** The distinct present categories of the roads that meet the buffer. *)
Local Notation kinds col park roads radius :=
  (nodup value_eq_dec
     (dropna (map (fun r : Row Geom => cell r col)
                  (filter (near park radius) (rows roads))))).

Lemma count_unique_roads_value (col : string) (park : Row Geom)
  (roads : GeoDataFrame Geom) (radius : Q) :
  has_column roads col = true ->
  count_unique_roads_in_radius buffer intersects col park roads radius
  = Return (Z.of_nat (List.length (kinds col park roads radius))).
Proof.
  intros Hcol. unfold count_unique_roads_in_radius. simpl.
  destruct (filter (near park radius) (rows roads)) as [|r l] eqn:E.
  - reflexivity.
  - simpl (0 <? _)%nat. cbv iota.
    unfold column, has_column in *. simpl. rewrite Hcol. reflexivity.
Qed.

Lemma In_kinds (col : string) (park : Row Geom) (roads : GeoDataFrame Geom)
  (radius : Q) (v : value) :
  In v (kinds col park roads radius)
  <-> exists r, In r (rows roads) /\ near park radius r = true
                /\ cell r col = Some v.
Proof.
  rewrite nodup_In, In_dropna, in_map_iff. split.
  - intros [r [Hc Hr]]. apply filter_In in Hr. destruct Hr as [Hr Hn].
    exists r. auto.
  - intros [r [Hr [Hn Hc]]]. exists r. split; [exact Hc|].
    apply filter_In. auto.
Qed.

End RadiusProps.

(** C5, as stated, fails: a road next to the park has no category; the
    count is 0 although that road meets the buffer. *)
Lemma count_unique_roads_zero_with_road_in_buffer :
  count_unique_roads_in_radius Line.buffer Line.intersects "highway"
    park_250 roads_untyped 100
  = Return 0%Z
  /\ exists r, In r (rows roads_untyped)
               /\ Line.intersects (geometry r)
                    (Line.buffer (geometry park_250) 100) = true.
Proof.
  split; [vm_compute; reflexivity|].
  exists (road 0 (300, 400)%Q None). split; [left; reflexivity|].
  vm_compute. reflexivity.
Qed.

(** C5, amended.  The result is the number of distinct present values of
    the category column among exactly the roads whose geometry meets the
    buffer of the given radius around the feature; it is 0 exactly when
    none of the roads meeting the buffer has a category value, and so in
    particular when no road meets the buffer. *)
Theorem count_unique_roads_distinct_present
  (Geom : Type) (buffer : Geom -> Q -> Geom) (intersects : Geom -> Geom -> bool)
  (col : string) (park : Row Geom) (roads : GeoDataFrame Geom) (radius : Q) :
  has_column roads col = true ->
  exists kinds : list value,
    count_unique_roads_in_radius buffer intersects col park roads radius
    = Return (Z.of_nat (List.length kinds))
    /\ NoDup kinds
    /\ (forall v, In v kinds
                  <-> exists r, In r (rows roads)
                                /\ intersects (geometry r)
                                     (buffer (geometry park) radius) = true
                                /\ cell r col = Some v)
    /\ (Z.of_nat (List.length kinds) = 0%Z
        <-> forall r, In r (rows roads) ->
                      intersects (geometry r) (buffer (geometry park) radius) = true ->
                      cell r col = None)
    /\ ((forall r, In r (rows roads) ->
                   intersects (geometry r) (buffer (geometry park) radius) = false) ->
        Z.of_nat (List.length kinds) = 0%Z).
Proof.
  intros Hcol.
  set (ks := nodup value_eq_dec
               (dropna (map (fun r : Row Geom => cell r col)
                  (filter (fun r => intersects (geometry r)
                                      (buffer (geometry park) radius))
                          (rows roads))))).
  assert (Hin : forall v, In v ks
                  <-> exists r, In r (rows roads)
                                /\ intersects (geometry r)
                                     (buffer (geometry park) radius) = true
                                /\ cell r col = Some v).
  { intros v. apply In_kinds. }
  assert (Hzero : Z.of_nat (List.length ks) = 0%Z
                  <-> forall r, In r (rows roads) ->
                        intersects (geometry r) (buffer (geometry park) radius) = true ->
                        cell r col = None).
  { split.
    - intros Hlen r Hr Hn.
      destruct (cell r col) as [v|] eqn:Hc; [|reflexivity].
      assert (Hv : In v ks) by (apply Hin; exists r; auto).
      destruct ks; [destruct Hv | simpl in Hlen; lia].
    - intros Hnone. destruct ks as [|v ks'] eqn:E; [reflexivity|].
      assert (Hv : In v (v :: ks')) by (left; reflexivity).
      apply Hin in Hv. destruct Hv as [r [Hr [Hn Hc]]].
      rewrite (Hnone r Hr Hn) in Hc. discriminate Hc. }
  exists ks. split; [apply count_unique_roads_value; exact Hcol|].
  split; [apply NoDup_nodup|].
  split; [exact Hin|].
  split; [exact Hzero|].
  intros Hfar. apply Hzero. intros r Hr Hn.
  rewrite (Hfar r Hr) in Hn. discriminate Hn.
Qed.

Lemma count_unique_roads_distinct_present_witness :
  exists kinds : list value,
    count_unique_roads_in_radius Line.buffer Line.intersects "highway"
      park_250 roads_in_city 100
    = Return (Z.of_nat (List.length kinds))
    /\ NoDup kinds
    /\ (forall v, In v kinds
                  <-> exists r, In r (rows roads_in_city)
                                /\ Line.intersects (geometry r)
                                     (Line.buffer (geometry park_250) 100) = true
                                /\ cell r "highway" = Some v)
    /\ (Z.of_nat (List.length kinds) = 0%Z
        <-> forall r, In r (rows roads_in_city) ->
                      Line.intersects (geometry r)
                        (Line.buffer (geometry park_250) 100) = true ->
                      cell r "highway" = None)
    /\ ((forall r, In r (rows roads_in_city) ->
                   Line.intersects (geometry r)
                     (Line.buffer (geometry park_250) 100) = false) ->
        Z.of_nat (List.length kinds) = 0%Z).
Proof.
  apply (@count_unique_roads_distinct_present Line.Geom Line.buffer
           Line.intersects "highway" park_250 roads_in_city 100).
  reflexivity.
Defined.

(** The module-level search leaves a column that the frame has. *)
Lemma resolve_road_type_column_present (Geom : Type)
  (roads_clipped : GeoDataFrame Geom) :
  has_column (fst (resolve_road_type_column roads_clipped))
             (snd (resolve_road_type_column roads_clipped)) = true.
Proof.
  unfold resolve_road_type_column.
  destruct (find (has_column roads_clipped) possible_columns) as [col|] eqn:E.
  - apply find_some in E. exact (proj2 E).
  - simpl. unfold set_column, has_column at 1. simpl.
    destruct (has_column roads_clipped "road_type") eqn:Hc.
    + exact Hc.
    + rewrite existsb_app. simpl. apply orb_true_r.
Qed.

(** C6.  On an empty roads collection [min_distance_to_road] raises (the
    [ValueError] of [idxmin] on an empty series), and
    [count_unique_roads_in_radius] is 0 for every feature and radius. *)
Theorem empty_roads_raise_and_zero
  (Geom : Type) (distance : Geom -> Geom -> Q) (buffer : Geom -> Q -> Geom)
  (intersects : Geom -> Geom -> bool) (cols : list string) (park : Row Geom) :
  min_distance_to_road distance park (mkFrame cols []) = Raise ValueError
  /\ fails (min_distance_to_road distance park (mkFrame cols []))
  /\ forall (road_type_column : string) (radius : Q),
       count_unique_roads_in_radius buffer intersects road_type_column
         park (mkFrame cols []) radius
       = Return 0%Z.
Proof.
  split; [reflexivity|].
  split; [exists ValueError; reflexivity|].
  intros road_type_column radius. reflexivity.
Qed.

(** C8.  When a larger buffer meets every road that a smaller one meets,
    the count does not decrease as the radius grows. *)
Theorem count_unique_roads_monotone
  (Geom : Type) (buffer : Geom -> Q -> Geom) (intersects : Geom -> Geom -> bool) :
  (forall (g a : Geom) (r1 r2 : Q),
      (r1 <= r2)%Q ->
      intersects a (buffer g r1) = true -> intersects a (buffer g r2) = true) ->
  forall (col : string) (park : Row Geom) (roads : GeoDataFrame Geom) (r1 r2 : Q),
    has_column roads col = true ->
    (r1 <= r2)%Q ->
    exists n1 n2 : Z,
      count_unique_roads_in_radius buffer intersects col park roads r1 = Return n1
      /\ count_unique_roads_in_radius buffer intersects col park roads r2 = Return n2
      /\ (n1 <= n2)%Z.
Proof.
  intros Hgrow col park roads r1 r2 Hcol Hle.
  rewrite !count_unique_roads_value by exact Hcol.
  eexists. eexists. split; [reflexivity|]. split; [reflexivity|].
  apply Nat2Z.inj_le.
  apply NoDup_incl_length; [apply NoDup_nodup|].
  intros v Hv.
  apply In_kinds in Hv. apply In_kinds.
  destruct Hv as [r [Hr [Hn Hc]]].
  exists r. split; [exact Hr|]. split; [|exact Hc].
  apply Hgrow with r1; assumption.
Qed.

Lemma Line_buffer_grows (g a : Line.Geom) (r1 r2 : Q) :
  (r1 <= r2)%Q ->
  Line.intersects a (Line.buffer g r1) = true ->
  Line.intersects a (Line.buffer g r2) = true.
Proof.
  unfold Line.intersects, Line.buffer. simpl. intros Hle.
  rewrite !andb_true_iff, !Qle_bool_iff. intros [H1 H2]. split; lra.
Qed.

Lemma count_unique_roads_monotone_witness :
  exists n1 n2 : Z,
    count_unique_roads_in_radius Line.buffer Line.intersects "highway"
      park_250 roads_in_city 100 = Return n1
    /\ count_unique_roads_in_radius Line.buffer Line.intersects "highway"
         park_250 roads_in_city 1000 = Return n2
    /\ (n1 <= n2)%Z.
Proof.
  apply (@count_unique_roads_monotone Line.Geom Line.buffer Line.intersects
           Line_buffer_grows "highway" park_250 roads_in_city 100 1000).
  - reflexivity.
  - unfold Qle. simpl. lia.
Defined.

(** ** Nearest road *)

(** [first_min] picks an entry that nothing before it equals or
    undercuts and nothing after it undercuts. *)
Lemma first_min_spec :
  forall (series : list (Z * Q)) (best : Z * Q),
  exists pre post,
    best :: series = pre ++ first_min best series :: post
    /\ (forall e, In e pre -> (snd (first_min best series) < snd e)%Q)
    /\ (forall e, In e post -> (snd (first_min best series) <= snd e)%Q).
Proof.
  induction series as [|e series IH]; intros best.
  - exists [], []. simpl. split; [reflexivity|]. split; intros e [].
  - simpl. destruct (Qle_bool (snd best) (snd e)) eqn:Hcmp.
    + apply Qle_bool_iff in Hcmp.
      destruct (IH best) as [pre [post [Hsplit [Hpre Hpost]]]].
      destruct pre as [|b pre].
      * simpl in Hsplit. injection Hsplit as Hb Hs.
        exists [], (e :: series). rewrite <- Hb. simpl.
        split; [reflexivity|]. split; [intros e' []|].
        intros e' [<-|He']; [exact Hcmp|].
        rewrite Hb. apply Hpost. rewrite <- Hs. exact He'.
      * simpl in Hsplit. injection Hsplit as <- Hs.
        exists (best :: e :: pre), post. simpl.
        split; [do 2 f_equal; exact Hs|]. split; [|exact Hpost].
        intros e' [<-|[<-|He']].
        -- apply Hpre. left. reflexivity.
        -- apply Qlt_le_trans with (snd best); [|exact Hcmp].
           apply Hpre. left. reflexivity.
        -- apply Hpre. right. exact He'.
    + assert (Hlt : (snd e < snd best)%Q).
      { apply Qnot_le_lt. intros Hle. apply Qle_bool_iff in Hle.
        rewrite Hle in Hcmp. discriminate Hcmp. }
      destruct (IH e) as [pre [post [Hsplit [Hpre Hpost]]]].
      exists (best :: pre), post. simpl.
      split; [f_equal; exact Hsplit|]. split; [|exact Hpost].
      intros e' [<-|He']; [|apply Hpre; exact He'].
      destruct pre as [|b pre].
      * simpl in Hsplit. injection Hsplit as Hb _. rewrite <- Hb. exact Hlt.
      * simpl in Hsplit. injection Hsplit as <- _.
        apply Qlt_trans with (snd e); [|exact Hlt].
        apply Hpre. left. reflexivity.
Qed.

Section NearestProps.

Variable Geom : Type.
Variable distance : Geom -> Geom -> Q.

Lemma find_label_unique (before after : list (Row Geom)) (r : Row Geom) :
  NoDup (map (@label Geom) (before ++ r :: after)) ->
  find (fun r' => (label r' =? label r)%Z) (before ++ r :: after) = Some r.
Proof.
  induction before as [|b before IH]; simpl; intros Hnd.
  - rewrite Z.eqb_refl. reflexivity.
  - inversion Hnd as [|l ls Hnotin Hnd']; subst.
    destruct (Z.eqb_spec (label b) (label r)) as [Heq|_].
    + exfalso. apply Hnotin. rewrite Heq, map_app. apply in_or_app.
      right. left. reflexivity.
    + apply IH. exact Hnd'.
Qed.

Lemma min_distance_to_road_nonempty (park : Row Geom) (roads : GeoDataFrame Geom) :
  rows roads <> [] ->
  NoDup (map (@label Geom) (rows roads)) ->
  exists before r after,
    rows roads = before ++ r :: after
    /\ min_distance_to_road distance park roads
       = Return (Fin (distance (geometry r) (geometry park)),
                 if has_column roads "id" then cell r "id"
                 else Some (VInt (label r)))
    /\ (forall r', In r' before ->
          (distance (geometry r) (geometry park)
           < distance (geometry r') (geometry park))%Q)
    /\ (forall r', In r' after ->
          (distance (geometry r) (geometry park)
           <= distance (geometry r') (geometry park))%Q).
Proof.
  intros Hne Hnd.
  set (f := fun r : Row Geom => (label r, distance (geometry r) (geometry park))).
  destruct (rows roads) as [|r0 rs] eqn:Hrows; [contradiction|].
  destruct (first_min_spec (map f rs) (f r0)) as [pre [post [Hsplit [Hpre Hpost]]]].
  change (f r0 :: map f rs) with (map f (r0 :: rs)) in Hsplit.
  apply map_eq_app in Hsplit.
  destruct Hsplit as [before [rest [Hrs [Hbefore Hrest]]]].
  apply map_eq_cons in Hrest.
  destruct Hrest as [r [after [-> [Hr Hafter]]]].
  exists before, r, after.
  split; [exact Hrs|].
  assert (Hfst : fst (first_min (f r0) (map f rs)) = label r)
    by (rewrite <- Hr; reflexivity).
  assert (Hsnd : snd (first_min (f r0) (map f rs))
                 = distance (geometry r) (geometry park))
    by (rewrite <- Hr; reflexivity).
  split.
  - unfold min_distance_to_road. rewrite Hrows.
    change (map (fun r1 : Row Geom =>
                   (label r1, distance (geometry r1) (geometry park))) (r0 :: rs))
      with (f r0 :: map f rs).
    unfold series_min, idxmin. simpl bind.
    rewrite Hfst, Hsnd.
    destruct (has_column roads "id"); [|reflexivity].
    unfold loc. rewrite Hrows, Hrs.
    rewrite find_label_unique by (rewrite <- Hrs; exact Hnd).
    reflexivity.
  - rewrite <- Hsnd. split.
    + intros r' Hr'. apply (Hpre (f r')). rewrite <- Hbefore.
      apply in_map. exact Hr'.
    + intros r' Hr'. apply (Hpost (f r')). rewrite <- Hafter.
      apply in_map. exact Hr'.
Qed.

Variable intersects : Geom -> Geom -> bool.
Variable intersection : Geom -> Geom -> Geom.
Variable union_all : list Geom -> Geom.

(** A row of a clipped frame carries the label, and the cells, of the
    row of the unclipped frame at the position that its label names. *)
Lemma clip_keeps_labels (gdf mask : GeoDataFrame Geom) :
  range_indexed gdf ->
  forall r, In r (rows (clip intersects intersection union_all gdf mask)) ->
    exists r0,
      nth_error (rows gdf) (Z.to_nat (label r)) = Some r0
      /\ (0 <= label r)%Z
      /\ label r = label r0 /\ cells r = cells r0.
Proof.
  unfold range_indexed, clip. simpl. intros Hrange r Hr.
  apply in_map_iff in Hr. destruct Hr as [r0 [<- Hr0]]. simpl.
  apply filter_In in Hr0. destruct Hr0 as [Hr0 _].
  apply In_nth_error in Hr0. destruct Hr0 as [i Hi].
  assert (Hlab : nth_error (map (@label Geom) (rows gdf)) i = Some (label r0)).
  { rewrite nth_error_map, Hi. reflexivity. }
  rewrite Hrange, nth_error_map in Hlab.
  assert (Hlt : (i < List.length (rows gdf))%nat).
  { apply nth_error_Some. rewrite Hi. discriminate. }
  rewrite nth_error_seq in Hlab.
  destruct (Nat.ltb_spec i (List.length (rows gdf))) as [_|Hge]; [|lia].
  simpl in Hlab. injection Hlab as Hlab.
  exists r0. rewrite <- Hlab, Nat2Z.id.
  split; [exact Hi|]. split; [lia|]. split; reflexivity.
Qed.

End NearestProps.

(** The park at distance 50 of road A (primary) and 150 of road B
    (secondary), radius 100: one category in reach, road A nearest. *)
Example park_between_two_roads :
  count_unique_roads_in_radius Line.buffer Line.intersects "highway"
    park_250 roads_A_B 100 = Return 1%Z
  /\ min_distance_to_road Line.distance park_250 roads_A_B
     = Return (Fin 50, Some (VInt 0)).
Proof. split; vm_compute; reflexivity. Qed.

(** C4, as stated, fails: after clipping, the nearest road is the first
    row of the clipped collection, position 0, and with no [id] column
    the identifier returned is its index label 1. *)
Lemma nearest_road_id_is_not_position :
  has_column roads_in_city "id" = false
  /\ nth_error (rows roads_in_city) 0 = Some (road 1 (300, 400)%Q (Some "primary"%string))
  /\ min_distance_to_road Line.distance park_250 roads_in_city
     = Return (Fin 50, Some (VInt 1))
  /\ positional_road_id roads_in_city 0 = Some (VInt 0)
  /\ Some (VInt 1) <> positional_road_id roads_in_city 0.
Proof.
  split; [reflexivity|].
  split; [vm_compute; reflexivity|].
  split; [vm_compute; reflexivity|].
  split; [reflexivity|].
  intros H. discriminate H.
Qed.

(** C4, amended.  On a non-empty roads collection with distinct index
    labels the result is the distance of the feature to a road that no
    other road undercuts and that no earlier road equals, together with
    that road's [id] cell when the collection has an [id] column and
    with that road's index label otherwise.  Clipping keeps the index
    labels: in a collection clipped from one that was labelled 0, 1, 2,
    ..., the label of a road is its position in the unclipped
    collection. *)
Theorem min_distance_to_road_first_nearest
  (Geom : Type) (distance : Geom -> Geom -> Q) :
  (forall (park : Row Geom) (roads : GeoDataFrame Geom),
      rows roads <> [] ->
      NoDup (map (@label Geom) (rows roads)) ->
      exists before r after,
        rows roads = before ++ r :: after
        /\ min_distance_to_road distance park roads
           = Return (Fin (distance (geometry r) (geometry park)),
                     if has_column roads "id" then cell r "id"
                     else Some (VInt (label r)))
        /\ (forall r', In r' (rows roads) ->
              (distance (geometry r) (geometry park)
               <= distance (geometry r') (geometry park))%Q)
        /\ (forall r', In r' before ->
              (distance (geometry r) (geometry park)
               < distance (geometry r') (geometry park))%Q))
  /\ (forall (intersects : Geom -> Geom -> bool)
             (intersection : Geom -> Geom -> Geom)
             (union_all : list Geom -> Geom)
             (gdf mask : GeoDataFrame Geom),
         range_indexed gdf ->
         forall r, In r (rows (clip intersects intersection union_all gdf mask)) ->
           exists r0,
             nth_error (rows gdf) (Z.to_nat (label r)) = Some r0
             /\ (0 <= label r)%Z
             /\ label r = label r0 /\ cells r = cells r0).
Proof.
  split.
  - intros park roads Hne Hnd.
    destruct (@min_distance_to_road_nonempty Geom distance park roads Hne Hnd)
      as [before [r [after [Hrows [Hrun [Hbefore Hafter]]]]]].
    exists before, r, after.
    split; [exact Hrows|]. split; [exact Hrun|]. split; [|exact Hbefore].
    intros r' Hr'. rewrite Hrows in Hr'. apply in_app_or in Hr'.
    destruct Hr' as [Hr'|[<-|Hr']].
    + apply Qlt_le_weak. apply Hbefore. exact Hr'.
    + apply Qle_refl.
    + apply Hafter. exact Hr'.
  - intros intersects intersection union_all gdf mask.
    apply clip_keeps_labels.
Qed.

Lemma min_distance_to_road_first_nearest_witness :
  exists before r after,
    rows roads_in_city = before ++ r :: after
    /\ min_distance_to_road Line.distance park_250 roads_in_city
       = Return (Fin (Line.distance (geometry r) (geometry park_250)),
                 if has_column roads_in_city "id" then cell r "id"
                 else Some (VInt (label r)))
    /\ (forall r', In r' (rows roads_in_city) ->
          (Line.distance (geometry r) (geometry park_250)
           <= Line.distance (geometry r') (geometry park_250))%Q)
    /\ (forall r', In r' before ->
          (Line.distance (geometry r) (geometry park_250)
           < Line.distance (geometry r') (geometry park_250))%Q).
Proof.
  apply (proj1 (@min_distance_to_road_first_nearest Line.Geom Line.distance)
           park_250 roads_in_city).
  - vm_compute. discriminate.
  - vm_compute. repeat constructor; simpl; intuition discriminate.
Defined.

(** ** Boundary resolution: totality and fallbacks *)

Section BoundaryMore.

Variable Geom : Type.
Variable char_matches : N -> N -> bool.
Variable re_compile_ignorecase : pystr -> option (pystr -> bool).

Local Notation hit variant :=
  (fun r : Row Geom =>
     contains_entry (search_ci char_matches variant) (cell r "name")).

Local Notation loop := (boundary_loop char_matches re_compile_ignorecase).
Local Notation resolve := (irkutsk_boundary char_matches re_compile_ignorecase).

(** With variants free of regular expression syntax the loop ends, and
    what it finds is the selection of a variant that matches. *)
Lemma boundary_loop_found (settlements : GeoDataFrame Geom) :
  forall variants : list pystr,
    (forall w, In w variants -> is_literal w = true) ->
    exists found,
      loop variants settlements = Return found
      /\ forall boundary,
           found = Some boundary ->
           exists v,
             In v variants
             /\ boundary
                = mkFrame (columns settlements) (filter (hit v) (rows settlements))
             /\ existsb (hit v) (rows settlements) = true.
Proof.
  induction variants as [|w variants IH]; intros Hlit.
  - exists None. split; [reflexivity | discriminate].
  - destruct IH as [found [Hloop Hfound]].
    { intros w' Hw. apply Hlit. right. exact Hw. }
    destruct (has_column settlements "name") eqn:Hcol.
    + rewrite boundary_loop_literal; [|apply Hlit; left; reflexivity | exact Hcol].
      destruct (existsb (hit w) (rows settlements)) eqn:E.
      * eexists. split; [reflexivity|].
        intros boundary H. injection H as <-. exists w.
        split; [left; reflexivity|]. split; [reflexivity | exact E].
      * exists found. split; [exact Hloop|].
        intros boundary H. destruct (Hfound _ H) as [v [Hv Hb]].
        exists v. split; [right|]; assumption.
    + exists found. split; [simpl; rewrite Hcol; exact Hloop|].
      intros boundary H. destruct (Hfound _ H) as [v [Hv Hb]].
      exists v. split; [right|]; assumption.
Qed.

(** X14.  With variants free of regular expression syntax, the boundary
    resolution raises (an [IndexError]) exactly when there is no
    candidate; otherwise it returns a frame with the columns of the
    candidates and a non-empty selection of their rows, in their order. *)
Theorem irkutsk_boundary_total
  (variants : list pystr) (settlements : GeoDataFrame Geom) :
  (forall w, In w variants -> is_literal w = true) ->
  (rows settlements = [] ->
   irkutsk_boundary char_matches re_compile_ignorecase variants settlements
   = Raise IndexError)
  /\ (rows settlements <> [] ->
      exists boundary,
        irkutsk_boundary char_matches re_compile_ignorecase variants settlements
        = Return boundary
        /\ rows boundary <> []
        /\ columns boundary = columns settlements
        /\ Subsequence (rows boundary) (rows settlements)).
Proof.
  intros Hlit. unfold irkutsk_boundary.
  destruct (boundary_loop_found settlements variants Hlit) as [found [-> Hfound]].
  simpl. destruct found as [boundary|].
  - destruct (Hfound boundary eq_refl) as [v [_ [-> Hany]]]. simpl.
    apply existsb_exists in Hany. destruct Hany as [r [Hr Hhit]].
    assert (Hin : In r (filter (hit v) (rows settlements)))
      by (apply filter_In; split; assumption).
    split.
    + intros Hempty. rewrite Hempty in Hr. destruct Hr.
    + intros _.
      destruct (filter (hit v) (rows settlements)) as [|r' l] eqn:E;
        [destruct Hin|].
      simpl. eexists. split; [reflexivity|]. simpl.
      split; [discriminate|]. split; [reflexivity|].
      rewrite <- E. apply Subsequence_filter.
  - unfold iloc0. split.
    + intros ->. reflexivity.
    + intros Hne. destruct (rows settlements) as [|r0 rest]; [contradiction|].
      eexists. split; [reflexivity|]. simpl.
      split; [discriminate|]. split; [reflexivity|].
      apply Subsequence_keep. clear.
      induction rest as [|a rest IH]; [apply Subsequence_nil | apply Subsequence_skip; exact IH].
Qed.

(** X15.  When the candidates have no [name] column no variant is looked
    up and the result is the first candidate, whatever the variants. *)
Theorem irkutsk_boundary_without_name_column
  (variants : list pystr) (settlements : GeoDataFrame Geom) :
  has_column settlements "name" = false ->
  irkutsk_boundary char_matches re_compile_ignorecase variants settlements
  = iloc0 settlements.
Proof.
  intros Hcol. unfold irkutsk_boundary.
  rewrite boundary_loop_no_column by exact Hcol. reflexivity.
Qed.

Lemma existsb_pointwise {A : Type} (f g : A -> bool) (l : list A) :
  (forall a, f a = g a) -> existsb f l = existsb g l.
Proof.
  intros H. induction l as [|a l IH]; simpl; [reflexivity|].
  rewrite H, IH. reflexivity.
Qed.

Lemma filter_pointwise {A : Type} (f g : A -> bool) (l : list A) :
  (forall a, f a = g a) -> filter f l = filter g l.
Proof.
  intros H. induction l as [|a l IH]; simpl; [reflexivity|].
  rewrite H, IH. reflexivity.
Qed.

(** X16.  Two of the four variants of the script are never the ones
    that decide.  The search engine tests a capital letter of a pattern,
    Latin or Cyrillic, as it tests the small letter; hence the lower-case
    Cyrillic and the upper-case Latin spelling select the same candidates
    as the first two variants, and for every candidate collection the
    result is the one obtained with the first two variants alone. *)
Theorem irkutsk_variants_two_suffice (settlements : GeoDataFrame Geom) :
  (forall p c, (65 <= p <= 90 \/ 1040 <= p <= 1071)%N ->
               char_matches p c = char_matches (p + 32) c) ->
  irkutsk_boundary char_matches re_compile_ignorecase irkutsk_variants settlements
  = irkutsk_boundary char_matches re_compile_ignorecase
      (firstn 2 irkutsk_variants) settlements.
Proof.
  intros Hfold.
  unfold irkutsk_boundary, irkutsk_variants. simpl firstn.
  set (v1 := [1048; 1088; 1082; 1091; 1090; 1089; 1082]%N).
  set (v2 := py "Irkutsk").
  set (v3 := [1080; 1088; 1082; 1091; 1090; 1089; 1082]%N).
  set (v4 := py "IRKUTSK").
  assert (H31 : forall r : Row Geom, hit v3 r = hit v1 r).
  { intros r. unfold contains_entry.
    destruct (cell r "name") as [[s|z]|]; try reflexivity.
    apply search_ci_same_tests. unfold v3, v1.
    constructor; [intros c; symmetry; apply (Hfold 1048%N c); lia|].
    repeat (constructor; [reflexivity|]). constructor. }
  assert (H42 : forall r : Row Geom, hit v4 r = hit v2 r).
  { intros r. unfold contains_entry.
    destruct (cell r "name") as [[s|z]|]; try reflexivity.
    apply search_ci_same_tests. unfold v4, v2.
    change (Forall2 (fun a b : N => forall c, char_matches a c = char_matches b c)
              [73; 82; 75; 85; 84; 83; 75]%N [73; 114; 107; 117; 116; 115; 107]%N).
    constructor; [reflexivity|].
    repeat (constructor;
            [intros c;
             match goal with
             | |- char_matches ?p c = _ => apply (Hfold p c); lia
             end|]).
    constructor. }
  destruct (has_column settlements "name") eqn:Hcol.
  - rewrite !boundary_loop_literal by (reflexivity || exact Hcol).
    rewrite (existsb_pointwise _ _ _ H31), (existsb_pointwise _ _ _ H42).
    rewrite (filter_pointwise _ _ _ H31), (filter_pointwise _ _ _ H42).
    simpl boundary_loop.
    destruct (existsb (hit v1) (rows settlements)); [reflexivity|].
    destruct (existsb (hit v2) (rows settlements)); reflexivity.
  - rewrite !boundary_loop_no_column by exact Hcol. reflexivity.
Qed.

End BoundaryMore.

Lemma irkutsk_boundary_total_witness :
  exists boundary,
    irkutsk_boundary lower_matches re_compile_sample [py "Nowhere"] candidates
    = Return boundary
    /\ rows boundary <> []
    /\ columns boundary = columns candidates
    /\ Subsequence (rows boundary) (rows candidates).
Proof.
  refine (proj2 (@irkutsk_boundary_total Line.Geom lower_matches re_compile_sample
                   [py "Nowhere"] candidates _) _).
  - intros w [<-|[]]. reflexivity.
  - discriminate.
Defined.

Lemma irkutsk_boundary_without_name_column_witness :
  irkutsk_boundary lower_matches re_compile_sample irkutsk_variants
    candidates_untitled
  = iloc0 candidates_untitled.
Proof.
  apply (@irkutsk_boundary_without_name_column Line.Geom lower_matches
           re_compile_sample irkutsk_variants candidates_untitled).
  reflexivity.
Defined.

Lemma irkutsk_variants_two_suffice_witness :
  irkutsk_boundary lower_matches re_compile_sample irkutsk_variants candidates
  = irkutsk_boundary lower_matches re_compile_sample (firstn 2 irkutsk_variants)
      candidates.
Proof.
  apply (@irkutsk_variants_two_suffice Line.Geom lower_matches re_compile_sample
           candidates).
  intros p c Hp. unfold lower_matches. rewrite (lower_capital Hp). reflexivity.
Defined.

(** ** Road category column *)

Lemma find_first {A : Type} (f : A -> bool) :
  forall (l : list A) (x : A),
    find f l = Some x ->
    exists pre post,
      l = pre ++ x :: post /\ f x = true /\ forall y, In y pre -> f y = false.
Proof.
  induction l as [|a l IH]; intros x; simpl; [discriminate|].
  destruct (f a) eqn:Ea.
  - intros H. injection H as <-. exists [], l.
    split; [reflexivity|]. split; [exact Ea | intros y []].
  - intros H. destruct (IH x H) as [pre [post [-> [Hx Hpre]]]].
    exists (a :: pre), post. split; [reflexivity|]. split; [exact Hx|].
    intros y [<-|Hy]; [exact Ea | apply Hpre; exact Hy].
Qed.

Lemma cell_set_column (Geom : Type) (r : Row Geom) (col : string) (v : value) :
  cell (mkRow (label r) (geometry r) (dict_set (cells r) col v)) col = Some v.
Proof. unfold cell. simpl. apply dict_get_set_same. Qed.

(** X17.  The category column is the first name of the priority list
    [type, road_type, highway, class, category, fclass] that the roads
    have, and the roads are then left as they are; when they have none
    of them a column [road_type] is added that holds ["road"] in every
    row.  In both cases the column that is named is one the frame has. *)
Theorem resolve_road_type_column_priority
  (Geom : Type) (roads_clipped : GeoDataFrame Geom) :
  has_column (fst (resolve_road_type_column roads_clipped))
             (snd (resolve_road_type_column roads_clipped)) = true
  /\ ((exists col pre post,
          resolve_road_type_column roads_clipped = (roads_clipped, col)
          /\ possible_columns = pre ++ col :: post
          /\ has_column roads_clipped col = true
          /\ forall c, In c pre -> has_column roads_clipped c = false)
      \/ ((forall c, In c possible_columns -> has_column roads_clipped c = false)
          /\ snd (resolve_road_type_column roads_clipped) = "road_type"%string
          /\ map (@label Geom) (rows (fst (resolve_road_type_column roads_clipped)))
             = map (@label Geom) (rows roads_clipped)
          /\ map (@geometry Geom) (rows (fst (resolve_road_type_column roads_clipped)))
             = map (@geometry Geom) (rows roads_clipped)
          /\ forall r, In r (rows (fst (resolve_road_type_column roads_clipped))) ->
                       cell r "road_type" = Some (VStr (py "road")))).
Proof.
  split; [apply resolve_road_type_column_present|].
  unfold resolve_road_type_column.
  destruct (find (has_column roads_clipped) possible_columns) as [col|] eqn:E.
  - left. apply find_first in E. destruct E as [pre [post [Hsplit [Hcol Hpre]]]].
    exists col, pre, post. auto.
  - right. split; [intros c Hc; apply (find_none _ _ E c Hc)|].
    simpl. split; [reflexivity|].
    rewrite !map_map. simpl. split; [reflexivity|]. split; [reflexivity|].
    intros r Hr. apply in_map_iff in Hr. destruct Hr as [r0 [<- _]].
    apply cell_set_column.
Qed.

(** ** Count of road categories: bounds and missing column *)

Lemma dropna_length (series : list (option value)) :
  (List.length (dropna series) <= List.length series)%nat.
Proof.
  induction series as [|[v|] series IH]; simpl; lia.
Qed.

Lemma nodup_length_le (l : list value) :
  (List.length (nodup value_eq_dec l) <= List.length l)%nat.
Proof.
  induction l as [|a l IH]; simpl; [lia|].
  destruct (in_dec value_eq_dec a l); simpl; lia.
Qed.

(** X18.  With the category column present the count is returned and
    lies between 0 and the number of roads that meet the buffer, which
    is at most the number of roads. *)
Theorem count_unique_roads_bounds
  (Geom : Type) (buffer : Geom -> Q -> Geom) (intersects : Geom -> Geom -> bool)
  (col : string) (park : Row Geom) (roads : GeoDataFrame Geom) (radius : Q) :
  has_column roads col = true ->
  exists n : Z,
    count_unique_roads_in_radius buffer intersects col park roads radius = Return n
    /\ (0 <= n)%Z
    /\ (n <= Z.of_nat
               (List.length
                  (filter (fun r => intersects (geometry r)
                                      (buffer (geometry park) radius))
                          (rows roads))))%Z
    /\ (n <= Z.of_nat (List.length (rows roads)))%Z.
Proof.
  intros Hcol.
  rewrite (@count_unique_roads_value Geom buffer intersects col park roads radius Hcol).
  eexists. split; [reflexivity|].
  set (near := filter (fun r => intersects (geometry r)
                                  (buffer (geometry park) radius)) (rows roads)).
  pose proof (nodup_length_le
                (dropna (map (fun r : Row Geom => cell r col) near))) as H1.
  pose proof (dropna_length (map (fun r : Row Geom => cell r col) near)) as H2.
  rewrite length_map in H2.
  pose proof (filter_length_le
                (fun r => intersects (geometry r) (buffer (geometry park) radius))
                (rows roads)) as H3.
  fold near in H3. lia.
Qed.

Lemma count_unique_roads_bounds_witness :
  exists n : Z,
    count_unique_roads_in_radius Line.buffer Line.intersects "highway"
      park_250 roads_A_B 100 = Return n
    /\ (0 <= n)%Z
    /\ (n <= Z.of_nat
               (List.length
                  (filter (fun r => Line.intersects (geometry r)
                                      (Line.buffer (geometry park_250) 100))
                          (rows roads_A_B))))%Z
    /\ (n <= Z.of_nat (List.length (rows roads_A_B)))%Z.
Proof.
  apply (@count_unique_roads_bounds Line.Geom Line.buffer Line.intersects
           "highway" park_250 roads_A_B 100).
  reflexivity.
Defined.

(** X19.  When the frame lacks the category column the count raises a
    [KeyError] as soon as some road meets the buffer, and is 0 without
    an error when none does. *)
Theorem count_unique_roads_missing_column
  (Geom : Type) (buffer : Geom -> Q -> Geom) (intersects : Geom -> Geom -> bool)
  (col : string) (park : Row Geom) (roads : GeoDataFrame Geom) (radius : Q) :
  has_column roads col = false ->
  ((exists r, In r (rows roads)
              /\ intersects (geometry r) (buffer (geometry park) radius) = true) ->
   count_unique_roads_in_radius buffer intersects col park roads radius
   = Raise KeyError)
  /\ ((forall r, In r (rows roads) ->
                 intersects (geometry r) (buffer (geometry park) radius) = false) ->
      count_unique_roads_in_radius buffer intersects col park roads radius
      = Return 0%Z).
Proof.
  intros Hcol. unfold count_unique_roads_in_radius. simpl.
  split.
  - intros [r [Hr Hn]].
    assert (Hin : In r (filter (fun r => intersects (geometry r)
                                           (buffer (geometry park) radius))
                               (rows roads)))
      by (apply filter_In; split; assumption).
    destruct (filter _ (rows roads)) as [|r' l]; [destruct Hin|].
    simpl (0 <? _)%nat. cbv iota.
    unfold column, has_column in *. simpl. rewrite Hcol. reflexivity.
  - intros Hfar.
    assert (Hnil : filter (fun r => intersects (geometry r)
                                      (buffer (geometry park) radius))
                          (rows roads) = []).
    { induction (rows roads) as [|r l IH]; [reflexivity|]. simpl.
      rewrite (Hfar r (or_introl eq_refl)).
      apply IH. intros r' Hr'. apply Hfar. right. exact Hr'. }
    rewrite Hnil. reflexivity.
Qed.

Lemma count_unique_roads_missing_column_witness :
  count_unique_roads_in_radius Line.buffer Line.intersects "highway"
    park_250 roads_plain 100
  = Raise KeyError.
Proof.
  apply (proj1 (@count_unique_roads_missing_column Line.Geom Line.buffer
                  Line.intersects "highway" park_250 roads_plain 100
                  eq_refl)).
  exists (mkRow 0 (300, 350)%Q []). split; [left; reflexivity|].
  vm_compute. reflexivity.
Defined.

(** X20.  Roads without any category column: after the module-level
    search has added the constant column, the count for a feature is 1
    when some road meets the buffer and 0 when none does. *)
Theorem count_unique_roads_degraded
  (Geom : Type) (buffer : Geom -> Q -> Geom) (intersects : Geom -> Geom -> bool)
  (park : Row Geom) (roads_clipped : GeoDataFrame Geom) (radius : Q) :
  (forall c, In c possible_columns -> has_column roads_clipped c = false) ->
  count_unique_roads_in_radius buffer intersects
    (snd (resolve_road_type_column roads_clipped)) park
    (fst (resolve_road_type_column roads_clipped)) radius
  = Return (if existsb (fun r => intersects (geometry r)
                                   (buffer (geometry park) radius))
                       (rows roads_clipped)
            then 1%Z else 0%Z).
Proof.
  intros Hnone.
  rewrite count_unique_roads_value by apply resolve_road_type_column_present.
  unfold resolve_road_type_column.
  assert (E : find (has_column roads_clipped) possible_columns = None).
  { destruct (find (has_column roads_clipped) possible_columns) as [c|] eqn:E;
      [|reflexivity].
    apply find_some in E. destruct E as [Hc Ht].
    rewrite (Hnone c Hc) in Ht. discriminate Ht. }
  rewrite E. simpl. f_equal.
  induction (rows roads_clipped) as [|r l IH]; [reflexivity|].
  simpl. destruct (intersects (geometry r) (buffer (geometry park) radius)).
  - simpl. unfold cell at 1. simpl. rewrite dict_get_set_same. simpl.
    clear IH.
    assert (Hall : forall w,
               In w (dropna
                       (map (fun r0 : Row Geom => cell r0 "road_type")
                          (filter (fun r0 => intersects (geometry r0)
                                               (buffer (geometry park) radius))
                             (map (fun r0 : Row Geom =>
                                     mkRow (label r0) (geometry r0)
                                       (dict_set (cells r0) "road_type"
                                          (VStr (py "road")))) l)))) ->
               w = VStr (py "road")).
    { intros w Hw. apply In_dropna in Hw. apply in_map_iff in Hw.
      destruct Hw as [r0 [Hc Hr0]]. apply filter_In in Hr0.
      destruct Hr0 as [Hr0 _]. apply in_map_iff in Hr0.
      destruct Hr0 as [r1 [<- _]]. rewrite cell_set_column in Hc.
      injection Hc as <-. reflexivity. }
    set (tail := dropna _) in *.
    destruct (in_dec value_eq_dec (VStr (py "road")) tail) as [Hin|Hnin].
    + assert (Hlen : List.length (nodup value_eq_dec tail) = 1%nat).
      { assert (Hnd := NoDup_nodup value_eq_dec tail).
        assert (Hsub : forall w, In w (nodup value_eq_dec tail) ->
                                 w = VStr (py "road"))
          by (intros w Hw; apply Hall; apply nodup_In in Hw; exact Hw).
        assert (Hne : In (VStr (py "road")) (nodup value_eq_dec tail))
          by (apply nodup_In; exact Hin).
        destruct (nodup value_eq_dec tail) as [|a [|b rest]];
          [destruct Hne | reflexivity |].
        exfalso. inversion Hnd as [|? ? Hnotin _]; subst.
        apply Hnotin. left.
        rewrite (Hsub a (or_introl eq_refl)).
        apply Hsub. right. left. reflexivity. }
      rewrite Hlen. reflexivity.
    + assert (Hnil : tail = []).
      { destruct tail as [|w tail']; [reflexivity|].
        exfalso. apply Hnin. left. apply Hall. left. reflexivity. }
      rewrite Hnil. reflexivity.
  - exact IH.
Qed.

Lemma count_unique_roads_degraded_witness :
  count_unique_roads_in_radius Line.buffer Line.intersects
    (snd (resolve_road_type_column roads_plain)) park_250
    (fst (resolve_road_type_column roads_plain)) 100
  = Return (if existsb (fun r => Line.intersects (geometry r)
                                   (Line.buffer (geometry park_250) 100))
                       (rows roads_plain)
            then 1%Z else 0%Z).
Proof.
  apply (@count_unique_roads_degraded Line.Geom Line.buffer Line.intersects
           park_250 roads_plain 100).
  intros c Hc. simpl in Hc.
  destruct Hc as [<-|[<-|[<-|[<-|[<-|[<-|[]]]]]]]; reflexivity.
Defined.

(** ** Nearest road: more roads, clipped roads *)

(** X21.  Adding roads to a collection never increases the distance to
    the nearest road. *)
Theorem min_distance_to_road_more_roads
  (Geom : Type) (distance : Geom -> Geom -> Q)
  (park : Row Geom) (roads1 roads2 : GeoDataFrame Geom) :
  rows roads1 <> [] ->
  (forall r, In r (rows roads1) -> In r (rows roads2)) ->
  NoDup (map (@label Geom) (rows roads1)) ->
  NoDup (map (@label Geom) (rows roads2)) ->
  exists d1 id1 d2 id2,
    min_distance_to_road distance park roads1 = Return (Fin d1, id1)
    /\ min_distance_to_road distance park roads2 = Return (Fin d2, id2)
    /\ (d2 <= d1)%Q.
Proof.
  intros Hne Hincl Hnd1 Hnd2.
  assert (Hne2 : rows roads2 <> []).
  { destruct (rows roads1) as [|r l]; [contradiction|].
    intros Hnil. specialize (Hincl r (or_introl eq_refl)).
    rewrite Hnil in Hincl. destruct Hincl. }
  destruct (@min_distance_to_road_nonempty Geom distance park roads1 Hne Hnd1)
    as [b1 [r1 [a1 [Hrows1 [Hrun1 _]]]]].
  destruct (@min_distance_to_road_nonempty Geom distance park roads2 Hne2 Hnd2)
    as [b2 [r2 [a2 [Hrows2 [Hrun2 [Hbefore Hafter]]]]]].
  do 4 eexists. split; [exact Hrun1|]. split; [exact Hrun2|].
  assert (Hin : In r1 (rows roads2)).
  { apply Hincl. rewrite Hrows1. apply in_or_app. right. left. reflexivity. }
  rewrite Hrows2 in Hin. apply in_app_or in Hin.
  destruct Hin as [Hin|[<-|Hin]].
  - apply Qlt_le_weak. apply Hbefore. exact Hin.
  - apply Qle_refl.
  - apply Hafter. exact Hin.
Qed.

Lemma min_distance_to_road_more_roads_witness :
  exists d1 id1 d2 id2,
    min_distance_to_road Line.distance park_250 roads_in_city = Return (Fin d1, id1)
    /\ min_distance_to_road Line.distance park_250 roads_read = Return (Fin d2, id2)
    /\ (d2 <= d1)%Q.
Proof.
  apply (@min_distance_to_road_more_roads Line.Geom Line.distance park_250
           roads_in_city roads_read).
  - vm_compute. discriminate.
  - intros r Hr. vm_compute in Hr. destruct Hr as [<-|[<-|[]]].
    + right. left. reflexivity.
    + right. right. left. reflexivity.
  - vm_compute. repeat constructor; simpl; intuition discriminate.
  - vm_compute. repeat constructor; simpl; intuition discriminate.
Defined.

(** Dropping rows keeps distinct labels distinct. *)
Lemma distinct_labels_filter (Geom : Type) (keep : Row Geom -> bool)
  (rs : list (Row Geom)) :
  NoDup (map (@label Geom) rs) ->
  NoDup (map (@label Geom) (filter keep rs)).
Proof.
  induction rs as [|r rs IH]; simpl; intros Hnd; [constructor|].
  inversion Hnd as [|? ? Hfresh Hrest]; subst.
  destruct (keep r); simpl; [|exact (IH Hrest)].
  constructor; [|exact (IH Hrest)].
  intros Hin. apply Hfresh. apply in_map_iff in Hin.
  destruct Hin as [r' [Hlab Hr']]. apply filter_In in Hr'.
  apply in_map_iff. exists r'. split; [exact Hlab | exact (proj1 Hr')].
Qed.

Lemma range_indexed_NoDup (Geom : Type) (frame : GeoDataFrame Geom) :
  range_indexed frame -> NoDup (map (@label Geom) (rows frame)).
Proof.
  unfold range_indexed. intros ->.
  generalize (seq_NoDup (List.length (rows frame)) 0).
  generalize (seq 0 (List.length (rows frame))) as l.
  induction l as [|a l IH]; simpl; intros Hnd; [constructor|].
  inversion Hnd as [|? ? Hnotin Hnd']; subst.
  constructor; [|apply IH; exact Hnd'].
  intros Hin. apply in_map_iff in Hin. destruct Hin as [b [Hb Hbin]].
  apply Nat2Z.inj in Hb. subst b. contradiction.
Qed.

(** X22.  Roads read with the default index and then clipped: when some
    road is left and there is no [id] column, the nearest-road result is
    returned, and the identifier in it is the position that the nearest
    road had in the collection before clipping. *)
Theorem min_distance_to_road_after_clip
  (Geom : Type) (distance : Geom -> Geom -> Q)
  (intersects : Geom -> Geom -> bool) (intersection : Geom -> Geom -> Geom)
  (union_all : list Geom -> Geom)
  (park : Row Geom) (roads mask : GeoDataFrame Geom) :
  range_indexed roads ->
  has_column roads "id" = false ->
  rows (clip intersects intersection union_all roads mask) <> [] ->
  exists r r0,
    In r (rows (clip intersects intersection union_all roads mask))
    /\ min_distance_to_road distance park
         (clip intersects intersection union_all roads mask)
       = Return (Fin (distance (geometry r) (geometry park)),
                 Some (VInt (label r)))
    /\ nth_error (rows roads) (Z.to_nat (label r)) = Some r0
    /\ cells r = cells r0
    /\ forall r', In r' (rows (clip intersects intersection union_all roads mask)) ->
         (distance (geometry r) (geometry park)
          <= distance (geometry r') (geometry park))%Q.
Proof.
  intros Hrange Hid Hne.
  set (clipped := clip intersects intersection union_all roads mask) in *.
  assert (Hnd : NoDup (map (@label Geom) (rows clipped))).
  { unfold clipped, clip. simpl. rewrite map_map. simpl.
    apply distinct_labels_filter. apply range_indexed_NoDup. exact Hrange. }
  destruct (@min_distance_to_road_nonempty Geom distance park clipped Hne Hnd)
    as [before [r [after [Hrows [Hrun [Hbefore Hafter]]]]]].
  assert (Hin : In r (rows clipped)).
  { rewrite Hrows. apply in_or_app. right. left. reflexivity. }
  destruct (@clip_keeps_labels Geom intersects intersection union_all roads mask
              Hrange r Hin) as [r0 [Hnth [_ [_ Hcells]]]].
  exists r, r0. split; [exact Hin|].
  split.
  - rewrite Hrun.
    assert (Hcol : has_column clipped "id" = false) by exact Hid.
    rewrite Hcol. reflexivity.
  - split; [exact Hnth|]. split; [exact Hcells|].
    intros r' Hr'. rewrite Hrows in Hr'. apply in_app_or in Hr'.
    destruct Hr' as [Hr'|[<-|Hr']].
    + apply Qlt_le_weak. apply Hbefore. exact Hr'.
    + apply Qle_refl.
    + apply Hafter. exact Hr'.
Qed.

Lemma min_distance_to_road_after_clip_witness :
  exists r r0,
    In r (rows roads_in_city)
    /\ min_distance_to_road Line.distance park_250 roads_in_city
       = Return (Fin (Line.distance (geometry r) (geometry park_250)),
                 Some (VInt (label r)))
    /\ nth_error (rows roads_read) (Z.to_nat (label r)) = Some r0
    /\ cells r = cells r0
    /\ forall r', In r' (rows roads_in_city) ->
         (Line.distance (geometry r) (geometry park_250)
          <= Line.distance (geometry r') (geometry park_250))%Q.
Proof.
  apply (@min_distance_to_road_after_clip Line.Geom Line.distance
           Line.intersects Line.intersection Line.union_all
           park_250 roads_read city).
  - reflexivity.
  - reflexivity.
  - vm_compute. discriminate.
Defined.

End GeospatialAnalysisProps.
